(** * A Todo backend on FastAPI and SQLAlchemy: model and properties

    The development follows the layout of the repository:
    - [models/todo.py]: the mapped class [Todo] and the three Pydantic
      schemas [TodoCreate], [TodoUpdate], [TodoResponse];
    - [controllers/todo.py]: the five persistence operations;
    - [routes/todo.py]: the five route handlers;
    - [middlewares/logger.py]: the timing middleware;
    - [main.py]: the application that wires router and middleware.

    Python code that reads the wall clock, talks to the database session and
    raises exceptions is written in a small state-and-exception monad [Py]
    over a [World] that holds the rows of the table, the wall clock, the
    primary keys the store hands out and the records written by the logger. *)

From Stdlib Require Import ZArith List String Bool Lia.
Import ListNotations.

Local Open Scope Z_scope.

(** ** models/todo.py *)

(** [datetime] values and [time.time()] readings are points on one wall
    clock, counted in microseconds. *)
Definition datetime := Z.

(** [class Todo(Base)]: a row of table [todos].  [id] is the primary key.
    [title = Column(String, index=True)] carries no [nullable=False], so the
    column admits NULL, like [description]; the two timestamp columns are
    declared [nullable=False]. *)
Module Todo.
Record t := mk {
  id : Z;
  title : option string;
  description : option string;
  created_at : datetime;
  updated_at : datetime
}.
End Todo.

(** [class TodoCreate(BaseModel)]: [title: str], [description: str | None = None]. *)
Module TodoCreate.
Record t := mk {
  title : string;
  description : option string
}.
End TodoCreate.

(** A field of a Pydantic model whose presence in the payload is tracked:
    it is either not set by the client, or set to a value (which for a
    [str | None] field may be [None]). *)
Inductive Field (A : Type) :=
  | Unset
  | Provided (v : A).
Arguments Unset {A}.
Arguments Provided {A} v.

(** [class TodoUpdate(BaseModel)]: both fields are [str | None = None]. *)
Module TodoUpdate.
Record t := mk {
  title : Field (option string);
  description : Field (option string)
}.
End TodoUpdate.

(** [class TodoResponse(BaseModel)]: [title: str] is not optional. *)
Module TodoResponse.
Record t := mk {
  id : Z;
  title : string;
  description : option string;
  created_at : datetime;
  updated_at : datetime
}.
End TodoResponse.

(** An attribute of a [Todo] paired with a value for it: an entry of
    [update_data] in [update_todo], a column assignment in an UPDATE. *)
Inductive Item :=
  | title_item (value : option string)
  | description_item (value : option string)
  | updated_at_item (value : datetime).

(** [setattr(db_todo, key, value)] *)
Definition setattr (db_todo : Todo.t) (item : Item) : Todo.t :=
  match item with
  | title_item v =>
      Todo.mk (Todo.id db_todo) v (Todo.description db_todo)
        (Todo.created_at db_todo) (Todo.updated_at db_todo)
  | description_item v =>
      Todo.mk (Todo.id db_todo) (Todo.title db_todo) v
        (Todo.created_at db_todo) (Todo.updated_at db_todo)
  | updated_at_item t =>
      Todo.mk (Todo.id db_todo) (Todo.title db_todo) (Todo.description db_todo)
        (Todo.created_at db_todo) t
  end.

(** ** Exceptions, world and the [Py] monad *)

Inductive Exception :=
  | HTTPException (status_code : Z) (detail : string)
  | ValidationError
  | IntegrityError
  | ObjectDeletedError
  | OverflowError.

(** What [logger.info] receives in [logging_middleware]: the request's
    method and path, and [process_time]. *)
Record LogRecord := mkLogRecord {
  log_method : string;
  log_path : string;
  log_process_time : Z
}.

(** The world a request runs in.
    - [table]: the rows of [todos], in the store's order;
    - [clock], [ticks]: [clock k] is the k-th reading anybody takes of the
      wall clock, [ticks] counts the readings taken so far;
    - [id_seq], [inserts]: [id_seq n] is the primary key the store proposes
      for the n-th INSERT, [inserts] counts the INSERTs attempted so far;
    - [log]: the records emitted by the logger, oldest first. *)
Record World := mkWorld {
  table : list Todo.t;
  clock : nat -> datetime;
  ticks : nat;
  id_seq : nat -> Z;
  inserts : nat;
  log : list LogRecord
}.

Definition with_table (rows : list Todo.t) (w : World) : World :=
  mkWorld rows (clock w) (ticks w) (id_seq w) (inserts w) (log w).

Definition with_ticks (n : nat) (w : World) : World :=
  mkWorld (table w) (clock w) n (id_seq w) (inserts w) (log w).

Definition with_inserts (n : nat) (w : World) : World :=
  mkWorld (table w) (clock w) (ticks w) (id_seq w) n (log w).

Definition with_log (l : list LogRecord) (w : World) : World :=
  mkWorld (table w) (clock w) (ticks w) (id_seq w) (inserts w) l.

(** A Python computation: runs in a world, and either raises or returns. *)
Definition Py (A : Type) : Type := World -> (Exception + A) * World.

Definition ret {A} (a : A) : Py A := fun w => (inr a, w).

Definition raise {A} (e : Exception) : Py A := fun w => (inl e, w).

Definition bind {A B} (c : Py A) (k : A -> Py B) : Py B :=
  fun w =>
    match c w with
    | (inr a, w') => k a w'
    | (inl e, w') => (inl e, w')
    end.

Notation "x <- c ;; k" := (bind c (fun x => k))
  (at level 100, c at next level, right associativity).
Notation "c ;;; k" := (bind c (fun _ => k))
  (at level 100, right associativity).

(** [datetime.utcnow()] and [time.time()]: one more reading of the clock. *)
Definition utcnow : Py datetime :=
  fun w => (inr (clock w (ticks w)), with_ticks (S (ticks w)) w).

Definition time_time : Py Z := utcnow.

(** [TodoResponse.from_orm(row)]: validation of the row's attributes against
    the schema; a NULL title is not a [str]. *)
Definition from_orm (row : Todo.t) : Py TodoResponse.t :=
  match Todo.title row with
  | Some s =>
      ret (TodoResponse.mk (Todo.id row) s (Todo.description row)
             (Todo.created_at row) (Todo.updated_at row))
  | None => raise ValidationError
  end.

(** ** The session ([db: Session = next(get_db())]) *)

(** The integers that the store's driver takes as a parameter of a
    statement: those of a signed 64-bit INTEGER.  A Python [int] outside of
    them cannot be bound; the attempt raises [OverflowError].  The engine is
    made in [helpers/database.py], which is not among the sources at hand;
    the range is the one of the sqlite3 driver. *)
Definition storable (i : Z) : bool :=
  (-9223372036854775808 <=? i) && (i <=? 9223372036854775807).

(** The row has the primary key [pk]. *)
Definition has_key (pk : Z) (row : Todo.t) : bool :=
  Todo.id row =? pk.

(** The criterion [Todo.id == todo_id], with [todo_id] a parameter of the
    statement: it selects the rows with that key, and none when [todo_id]
    is not an integer the driver can bind. *)
Definition has_id (todo_id : Z) (row : Todo.t) : bool :=
  storable todo_id && has_key todo_id row.

(** [db.query(Todo).filter(Todo.id == todo_id).first()]: [todo_id] is the
    [int] that the route took from the path, unchecked. *)
Definition query_first (todo_id : Z) : Py (option Todo.t) :=
  fun w =>
    if storable todo_id then (inr (find (has_id todo_id) (table w)), w)
    else (inl OverflowError, w).

(** [db.query(Todo).all()] *)
Definition query_all : Py (list Todo.t) :=
  fun w => (inr (table w), w).

(** [db.add(obj); db.commit()] for a new object: the INSERT.  The store
    proposes the primary key, which is no parameter of the statement; a key
    already in the table violates the primary-key constraint. *)
Definition add_commit (obj : Z -> Todo.t) : Py Todo.t :=
  fun w =>
    let pk := id_seq w (inserts w) in
    let w1 := with_inserts (S (inserts w)) w in
    if existsb (has_key pk) (table w) then (inl IntegrityError, w1)
    else (inr (obj pk), with_table (table w ++ [obj pk]) w1).

Definition opt_string_eqb (a b : option string) : bool :=
  match a, b with
  | Some x, Some y => String.eqb x y
  | None, None => true
  | _, _ => false
  end.

(** The attributes of [obj] whose value differs from the one loaded. *)
Definition net_changes (loaded obj : Todo.t) : list Item :=
  (if opt_string_eqb (Todo.title obj) (Todo.title loaded) then []
   else [title_item (Todo.title obj)]) ++
  (if opt_string_eqb (Todo.description obj) (Todo.description loaded) then []
   else [description_item (Todo.description obj)]) ++
  (if Todo.updated_at obj =? Todo.updated_at loaded then []
   else [updated_at_item (Todo.updated_at obj)]).

Definition sets_updated_at (item : Item) : bool :=
  match item with
  | updated_at_item _ => true
  | _ => false
  end.

(** What [... WHERE id = pk] does to one row; [pk] is the key of an object
    that a lookup has loaded. *)
Definition where_id (pk : Z) (f : Todo.t -> Todo.t) (row : Todo.t) : Todo.t :=
  if has_id pk row then f row else row.

(** [UPDATE todos SET ... WHERE id = pk] *)
Definition execute_update (pk : Z) (assignments : list Item) : Py unit :=
  fun w =>
    (inr tt,
     with_table (map (where_id pk (fold_left setattr assignments)) (table w)) w).

(** [db.commit()] after attribute assignments on a loaded object.  Only
    attributes whose value differs from the loaded one go into the UPDATE,
    and no statement is sent when none differs.  When a statement is sent
    without [updated_at], the column's [onupdate=datetime.utcnow] supplies
    it. *)
Definition commit_update (loaded obj : Todo.t) : Py unit :=
  match net_changes loaded obj with
  | [] => ret tt
  | changes =>
      if existsb sets_updated_at changes then
        execute_update (Todo.id obj) changes
      else
        now <- utcnow ;;
        execute_update (Todo.id obj) (changes ++ [updated_at_item now])
  end.

(** [db.delete(obj); db.commit()]: [DELETE FROM todos WHERE id = pk]. *)
Definition delete_commit (obj : Todo.t) : Py unit :=
  fun w =>
    (inr tt,
     with_table (filter (fun row => negb (has_id (Todo.id obj) row)) (table w)) w).

(** [db.refresh(obj)]: reload the attributes from the row with its key,
    which is a parameter of the SELECT. *)
Definition refresh (obj : Todo.t) : Py Todo.t :=
  fun w =>
    if storable (Todo.id obj) then
      match find (has_id (Todo.id obj)) (table w) with
      | Some row => (inr row, w)
      | None => (inl ObjectDeletedError, w)
      end
    else (inl OverflowError, w).

(** ** controllers/todo.py *)

(** [todo.dict(exclude_unset=True)]: the fields the client set, in the
    order of the model's fields. *)
Definition dict_exclude_unset (todo : TodoUpdate.t) : list Item :=
  match TodoUpdate.title todo with
  | Unset => []
  | Provided v => [title_item v]
  end ++
  match TodoUpdate.description todo with
  | Unset => []
  | Provided v => [description_item v]
  end.

Definition create_todo (todo : TodoCreate.t) : Py TodoResponse.t :=
  created <- utcnow ;;
  updated <- utcnow ;;
  let db_todo := fun pk =>
    Todo.mk pk (Some (TodoCreate.title todo)) (TodoCreate.description todo)
      created updated in
  db_todo <- add_commit db_todo ;;
  db_todo <- refresh db_todo ;;
  from_orm db_todo.

(** The list comprehension [[TodoResponse.from_orm(todo) for todo in todos]]. *)
Fixpoint from_orm_each (todos : list Todo.t) : Py (list TodoResponse.t) :=
  match todos with
  | [] => ret []
  | todo :: rest =>
      v <- from_orm todo ;;
      vs <- from_orm_each rest ;;
      ret (v :: vs)
  end.

Definition get_all_todos : Py (list TodoResponse.t) :=
  todos <- query_all ;;
  from_orm_each todos.

Definition get_todo_by_id (todo_id : Z) : Py (option TodoResponse.t) :=
  todo <- query_first todo_id ;;
  match todo with
  | Some todo => (v <- from_orm todo ;; ret (Some v))
  | None => ret None
  end.

Definition update_todo (todo_id : Z) (todo : TodoUpdate.t)
  : Py (option TodoResponse.t) :=
  loaded <- query_first todo_id ;;
  match loaded with
  | None => ret None
  | Some loaded =>
      let update_data := dict_exclude_unset todo in
      now <- utcnow ;;
      let update_data := update_data ++ [updated_at_item now] in
      let db_todo := fold_left setattr update_data loaded in
      commit_update loaded db_todo ;;;
      db_todo <- refresh db_todo ;;
      v <- from_orm db_todo ;;
      ret (Some v)
  end.

Definition delete_todo (todo_id : Z) : Py bool :=
  db_todo <- query_first todo_id ;;
  match db_todo with
  | None => ret false
  | Some db_todo =>
      delete_commit db_todo ;;;
      ret true
  end.

(** ** routes/todo.py *)

Definition create_todo_route (todo : TodoCreate.t) : Py TodoResponse.t :=
  create_todo todo.

Definition get_all_todos_route : Py (list TodoResponse.t) :=
  get_all_todos.

Definition get_todo_route (todo_id : Z) : Py TodoResponse.t :=
  todo <- get_todo_by_id todo_id ;;
  match todo with
  | None => raise (HTTPException 404 "Todo not found")
  | Some todo => ret todo
  end.

Definition update_todo_route (todo_id : Z) (todo : TodoUpdate.t)
  : Py TodoResponse.t :=
  updated_todo <- update_todo todo_id todo ;;
  match updated_todo with
  | None => raise (HTTPException 404 "Todo not found")
  | Some updated_todo => ret updated_todo
  end.

(** Returns the value under [message] of the confirmation payload. *)
Definition delete_todo_route (todo_id : Z) : Py string :=
  deleted <- delete_todo todo_id ;;
  if deleted : bool then ret "Todo deleted successfully"%string
  else raise (HTTPException 404 "Todo not found").

(** ** main.py: requests, responses and the router *)

Inductive Json :=
  | json_todo (v : TodoResponse.t)
  | json_todos (vs : list TodoResponse.t)
  | json_message (message : string)
  | json_detail (detail : string).

Record Response := mkResponse {
  status_code : Z;
  body : Json
}.

(** A request as the application sees it once FastAPI has matched the path
    and parsed path parameter and body: one of the five operations bound by
    the router under [/todos], or a request that FastAPI answers by itself
    (no such route, a non-integer id, a body that does not validate) with
    the given response, no handler being run. *)
Inductive Call :=
  | post_todos (todo : TodoCreate.t)
  | get_todos
  | get_todo (todo_id : Z)
  | put_todo (todo_id : Z) (todo : TodoUpdate.t)
  | delete_todo_call (todo_id : Z)
  | refused (response : Response).

Record Request := mkRequest {
  method : string;
  url_path : string;
  call : Call
}.

(** [app.include_router(todo_router, prefix="/todos")]: the handler bound to
    the request runs and its value becomes the body of a 200 response. *)
Definition router (c : Call) : Py Response :=
  match c with
  | post_todos todo =>
      v <- create_todo_route todo ;; ret (mkResponse 200 (json_todo v))
  | get_todos =>
      vs <- get_all_todos_route ;; ret (mkResponse 200 (json_todos vs))
  | get_todo todo_id =>
      v <- get_todo_route todo_id ;; ret (mkResponse 200 (json_todo v))
  | put_todo todo_id todo =>
      v <- update_todo_route todo_id todo ;; ret (mkResponse 200 (json_todo v))
  | delete_todo_call todo_id =>
      m <- delete_todo_route todo_id ;; ret (mkResponse 200 (json_message m))
  | refused response => ret response
  end.

(** FastAPI's exception handling sits inside the middleware registered with
    [app.middleware("http")]: an [HTTPException] raised by a handler becomes
    the response with its status and detail; any other exception goes on to
    the caller of [call_next]. *)
Definition call_next (request : Request) : Py Response :=
  fun w =>
    match router (call request) w with
    | (inl (HTTPException status detail), w') =>
        (inr (mkResponse status (json_detail detail)), w')
    | other => other
    end.

(** ** middlewares/logger.py *)

(** [logger.info(...)] *)
Definition logger_info (record : LogRecord) : Py unit :=
  fun w => (inr tt, with_log (log w ++ [record]) w).

Definition logging_middleware (request : Request)
    (call_next : Request -> Py Response) : Py Response :=
  start_time <- time_time ;;
  response <- call_next request ;;
  end_time <- time_time ;;
  let process_time := end_time - start_time in
  logger_info (mkLogRecord (method request) (url_path request) process_time) ;;;
  ret response.

(** [app.middleware("http")(logging_middleware)] *)
Definition app (request : Request) : Py Response :=
  logging_middleware request call_next.

(** ** Runs of the application *)

(** The world after the operation [c] has been handled. *)
Definition step (w : World) (c : Call) : World := snd (router c w).

(** The world after the operations [cs] have been handled in turn. *)
Definition run (cs : list Call) (w : World) : World := fold_left step cs w.

(** The clock never runs backwards. *)
Definition monotone (clk : nat -> datetime) : Prop :=
  forall j k : nat, (j <= k)%nat -> clk j <= clk k.

(** A world at start-up: empty table, nothing read, inserted or logged. *)
Definition start (clk : nat -> datetime) (ids : nat -> Z) : World :=
  mkWorld [] clk 0 ids 0 [].

(** A clock that advances by one microsecond between two readings, a clock
    that is set back by one microsecond between two readings, and a store
    that numbers rows from 1. *)
Definition ticking (k : nat) : datetime := Z.of_nat k.

Definition set_back (k : nat) : datetime := 10 - Z.of_nat k.

Definition serial (n : nat) : Z := Z.of_nat n + 1.

(** The value a field of an update leaves in an attribute that held [old]. *)
Definition assigned {A} (f : Field A) (old : A) : A :=
  match f with
  | Unset => old
  | Provided v => v
  end.

(** The view [from_orm] builds from a row with title [s]. *)
Definition view_of (s : string) (row : Todo.t) : TodoResponse.t :=
  TodoResponse.mk (Todo.id row) s (Todo.description row)
    (Todo.created_at row) (Todo.updated_at row).

(** What leaves the world's environment alone: the clock, the key sequence
    and the log; clock readings and inserts are only ever counted up. *)
Definition same_env (w w' : World) : Prop :=
  clock w' = clock w /\ id_seq w' = id_seq w /\ log w' = log w /\
  (ticks w <= ticks w')%nat /\ (inserts w <= inserts w')%nat.

(** Every stored row was created no later than it was last updated, and no
    later than any reading the clock has yet to give. *)
Definition stamped (w : World) : Prop :=
  forall r, In r (table w) ->
    Todo.created_at r <= Todo.updated_at r /\
    forall k, (ticks w <= k)%nat -> Todo.created_at r <= clock w k.

(** Whether the operation is the create operation. *)
Definition is_post (c : Call) : bool :=
  match c with
  | post_todos _ => true
  | _ => false
  end.

(** Whether the operation is an update whose payload sets [title] to
    [null]. *)
Definition nulls_title (c : Call) : bool :=
  match c with
  | put_todo _ todo =>
      match TodoUpdate.title todo with
      | Provided None => true
      | _ => false
      end
  | _ => false
  end.

(** Every row that a lookup by id can return has a title. *)
Definition titled (w : World) : Prop :=
  forall todo_id r,
    find (has_id todo_id) (table w) = Some r -> Todo.title r <> None.

(** The view of a row, when the row has one: what [from_orm] returns. *)
Definition to_view (row : Todo.t) : option TodoResponse.t :=
  match Todo.title row with
  | Some s => Some (view_of s row)
  | None => None
  end.

(** No two rows of the table have the same primary key. *)
Definition unique_ids (w : World) : Prop := NoDup (map Todo.id (table w)).

(** No stored [updated_at] is later than a reading the clock has yet to
    give. *)
Definition dated (w : World) : Prop :=
  forall r, In r (table w) ->
    forall k, (ticks w <= k)%nat -> Todo.updated_at r <= clock w k.

(** The world after the application has served the requests in turn,
    whether a request ended in a response or in an exception. *)
Definition serve (requests : list Request) (w : World) : World :=
  fold_left (fun w0 request => snd (app request w0)) requests w.

(** A store that proposes the key 1 for every INSERT. *)
Definition stuck (n : nat) : Z := 1.


Definition todo_B : TodoCreate.t := TodoCreate.mk "B" (Some "b"%string).

(** Payloads and worlds used in examples. *)
Definition todo_A : TodoCreate.t := TodoCreate.mk "A" None.

Definition empty_update : TodoUpdate.t := TodoUpdate.mk Unset Unset.

Definition null_title : TodoUpdate.t := TodoUpdate.mk (Provided None) Unset.

Definition only_description (d : string) : TodoUpdate.t :=
  TodoUpdate.mk Unset (Provided (Some d)).

(** The world after [POST /todos {title: A}] on a fresh start. *)
Definition world_A : World := run [post_todos todo_A] (start ticking serial).

(** The world after [PUT /todos/1 {title: null}] in [world_A]. *)
Definition world_null : World := run [put_todo 1 null_title] world_A.

(** The world after [POST /todos {title: A}] and
    [POST /todos {title: B, description: b}] on a fresh start. *)
Definition world_AB : World :=
  run [post_todos todo_A; post_todos todo_B] (start ticking serial).

(** The world after one [POST /todos {title: A}] on a store that proposes
    the key 1 every time. *)
Definition world_stuck : World := run [post_todos todo_A] (start ticking stuck).

(** * Properties *)

(** ** Rows and keys *)

Lemma has_key_true pk row : has_key pk row = true <-> Todo.id row = pk.
Proof. unfold has_key. apply Z.eqb_eq. Qed.

Lemma has_id_true i row :
  has_id i row = true <-> storable i = true /\ Todo.id row = i.
Proof. unfold has_id. now rewrite andb_true_iff, has_key_true. Qed.

Lemma has_id_id i row : has_id i row = true -> Todo.id row = i.
Proof. intros H. now apply has_id_true in H. Qed.

Lemma has_id_neq i row : Todo.id row <> i -> has_id i row = false.
Proof.
  intros Hne. destruct (has_id i row) eqn:H; [|reflexivity].
  apply has_id_id in H. contradiction.
Qed.

Lemma has_id_false i row :
  storable i = true -> has_id i row = false -> Todo.id row <> i.
Proof.
  intros Hi Hfalse Hid.
  assert (Htrue : has_id i row = true) by now apply has_id_true.
  congruence.
Qed.

Lemma has_id_same_key i row row' :
  Todo.id row' = Todo.id row -> has_id i row' = has_id i row.
Proof. unfold has_id, has_key. now intros ->. Qed.

Lemma find_has_id i rows r :
  find (has_id i) rows = Some r -> Todo.id r = i /\ In r rows.
Proof.
  intros H. apply find_some in H as [Hin Hid].
  split; [now apply has_id_id | exact Hin].
Qed.

(** A lookup only finds a row under an id the driver can bind. *)
Lemma find_storable i rows r :
  find (has_id i) rows = Some r -> storable i = true.
Proof.
  intros H. apply find_some in H as [_ Hid]. now apply has_id_true in Hid.
Qed.

Lemma find_unstorable i rows :
  storable i = false -> find (has_id i) rows = None.
Proof.
  intros Hi. destruct (find (has_id i) rows) as [r|] eqn:H; [|reflexivity].
  apply find_storable in H. congruence.
Qed.

Lemma find_existsb i rows :
  existsb (has_key i) rows = false -> find (has_id i) rows = None.
Proof.
  induction rows as [|row rows IH]; simpl; [reflexivity|].
  unfold has_id at 1. destruct (has_key i row); simpl; [discriminate|].
  rewrite andb_false_r. exact IH.
Qed.

Lemma find_app_new i rows r :
  find (has_id i) rows = None ->
  find (has_id i) (rows ++ [r]) = if has_id i r then Some r else None.
Proof.
  induction rows as [|row rows IH]; simpl; [reflexivity|].
  destruct (has_id i row); [discriminate | exact IH].
Qed.

Lemma find_app_old i rows r row :
  find (has_id i) rows = Some row ->
  find (has_id i) (rows ++ [r]) = Some row.
Proof.
  induction rows as [|x rows IH]; simpl; [discriminate|].
  destruct (has_id i x); [trivial | exact IH].
Qed.

Section Update.
Variable pk : Z.
Variable f : Todo.t -> Todo.t.
Hypothesis f_id : forall row, Todo.id (f row) = Todo.id row.

Lemma upd_id row : Todo.id (where_id pk f row) = Todo.id row.
Proof.
  unfold where_id. destruct (has_id pk row); [apply f_id | reflexivity].
Qed.

Lemma find_map_upd j rows :
  find (has_id j) (map (where_id pk f) rows) = option_map (where_id pk f) (find (has_id j) rows).
Proof.
  induction rows as [|row rows IH]; simpl; [reflexivity|].
  rewrite (has_id_same_key j row (where_id pk f row) (upd_id row)).
  destruct (has_id j row); [reflexivity | exact IH].
Qed.

Lemma find_map_upd_eq rows r :
  find (has_id pk) rows = Some r ->
  find (has_id pk) (map (where_id pk f) rows) = Some (f r).
Proof.
  intros H. rewrite find_map_upd, H. simpl. unfold where_id.
  apply find_some in H as [_ H]. now rewrite H.
Qed.

Lemma find_map_upd_ne j rows :
  j <> pk -> find (has_id j) (map (where_id pk f) rows) = find (has_id j) rows.
Proof.
  intros Hne. rewrite find_map_upd.
  destruct (find (has_id j) rows) as [r|] eqn:H; [|reflexivity].
  simpl. unfold where_id. apply find_has_id in H as [H _].
  assert (Hf : has_id pk r = false) by (apply has_id_neq; congruence).
  now rewrite Hf.
Qed.
End Update.

Lemma find_filter_eq i rows :
  find (has_id i) (filter (fun row => negb (has_id i row)) rows) = None.
Proof.
  induction rows as [|row rows IH]; simpl; [reflexivity|].
  destruct (has_id i row) eqn:H; simpl; [exact IH|]. now rewrite H.
Qed.

Lemma find_filter_ne i j rows :
  j <> i ->
  find (has_id j) (filter (fun row => negb (has_id i row)) rows)
  = find (has_id j) rows.
Proof.
  intros Hne. induction rows as [|row rows IH]; simpl; [reflexivity|].
  destruct (has_id i row) eqn:Hi; simpl.
  - apply has_id_id in Hi.
    assert (Hj : has_id j row = false) by (apply has_id_neq; congruence).
    now rewrite Hj.
  - destruct (has_id j row); [reflexivity | exact IH].
Qed.

Lemma setattr_id row item : Todo.id (setattr row item) = Todo.id row.
Proof. now destruct item. Qed.

Lemma setattr_created_at row item :
  Todo.created_at (setattr row item) = Todo.created_at row.
Proof. now destruct item. Qed.

Lemma fold_setattr_id items row :
  Todo.id (fold_left setattr items row) = Todo.id row.
Proof.
  revert row. induction items as [|item items IH]; intros row; simpl.
  - reflexivity.
  - now rewrite IH, setattr_id.
Qed.

Lemma fold_setattr_created_at items row :
  Todo.created_at (fold_left setattr items row) = Todo.created_at row.
Proof.
  revert row. induction items as [|item items IH]; intros row; simpl.
  - reflexivity.
  - now rewrite IH, setattr_created_at.
Qed.

Lemma opt_string_eqb_eq a b : opt_string_eqb a b = true <-> a = b.
Proof.
  destruct a as [x|], b as [y|]; simpl; split; intros H;
    try discriminate; try reflexivity.
  - apply String.eqb_eq in H. now subst.
  - injection H as ->. apply String.eqb_refl.
Qed.

Lemma opt_string_eqb_refl a : opt_string_eqb a a = true.
Proof. now apply opt_string_eqb_eq. Qed.

(** ** What each controller does *)

(** What a lookup by id returns or raises. *)
Lemma query_first_found w todo_id row :
  find (has_id todo_id) (table w) = Some row ->
  query_first todo_id w = (inr (Some row), w).
Proof.
  intros H. unfold query_first. rewrite (find_storable _ _ _ H). now rewrite H.
Qed.

Lemma query_first_missing w todo_id :
  find (has_id todo_id) (table w) = None ->
  query_first todo_id w =
    (if storable todo_id then inr None else inl OverflowError, w).
Proof.
  intros H. unfold query_first. rewrite H. now destruct (storable todo_id).
Qed.

(** The row [create_todo] inserts when the key the store proposes is free;
    the view is returned when the reload by that key can be made. *)
Lemma create_todo_fresh w todo :
  let pk := id_seq w (inserts w) in
  let row := Todo.mk pk (Some (TodoCreate.title todo))
               (TodoCreate.description todo)
               (clock w (ticks w)) (clock w (S (ticks w))) in
  existsb (has_key pk) (table w) = false ->
  create_todo todo w =
    (if storable pk then inr (view_of (TodoCreate.title todo) row)
     else inl OverflowError,
     mkWorld (table w ++ [row]) (clock w) (S (S (ticks w))) (id_seq w)
       (S (inserts w)) (log w)).
Proof.
  intros pk row Hfresh.
  unfold create_todo, bind, utcnow, add_commit, refresh, from_orm, ret. simpl.
  fold pk. rewrite Hfresh. simpl. fold row.
  destruct (storable pk) eqn:Hpk; [|reflexivity].
  rewrite (find_app_new pk (table w) row (find_existsb _ _ Hfresh)).
  assert (Hrow : has_id pk row = true) by now apply has_id_true.
  rewrite Hrow. reflexivity.
Qed.

(** When the proposed key is taken, the INSERT fails and no row changes. *)
Lemma create_todo_taken w todo :
  existsb (has_key (id_seq w (inserts w))) (table w) = true ->
  create_todo todo w =
    (inl IntegrityError,
     mkWorld (table w) (clock w) (S (S (ticks w))) (id_seq w)
       (S (inserts w)) (log w)).
Proof.
  intros Htaken.
  unfold create_todo, bind, utcnow, add_commit. simpl.
  rewrite Htaken. reflexivity.
Qed.

(** When [create_todo] returns, the key was free and can be bound. *)
Lemma create_todo_returns w w' todo v :
  create_todo todo w = (inr v, w') ->
  existsb (has_key (id_seq w (inserts w))) (table w) = false /\
  storable (id_seq w (inserts w)) = true.
Proof.
  intros Hcreate.
  destruct (existsb (has_key (id_seq w (inserts w))) (table w)) eqn:Hpk.
  - rewrite (create_todo_taken _ _ Hpk) in Hcreate. discriminate.
  - rewrite (create_todo_fresh _ _ Hpk) in Hcreate.
    destruct (storable (id_seq w (inserts w))); [now split | discriminate].
Qed.

Lemma get_todo_by_id_found w todo_id row :
  find (has_id todo_id) (table w) = Some row ->
  get_todo_by_id todo_id w =
    match Todo.title row with
    | Some s => (inr (Some (view_of s row)), w)
    | None => (inl ValidationError, w)
    end.
Proof.
  intros H. unfold get_todo_by_id, bind, from_orm.
  rewrite (query_first_found _ _ _ H).
  destruct (Todo.title row); reflexivity.
Qed.

Lemma get_todo_by_id_missing w todo_id :
  find (has_id todo_id) (table w) = None ->
  get_todo_by_id todo_id w =
    (if storable todo_id then inr None else inl OverflowError, w).
Proof.
  intros H. unfold get_todo_by_id, bind. rewrite (query_first_missing _ _ H).
  now destruct (storable todo_id).
Qed.

Lemma delete_todo_found w todo_id row :
  find (has_id todo_id) (table w) = Some row ->
  delete_todo todo_id w =
    (inr true,
     with_table (filter (fun r => negb (has_id todo_id r)) (table w)) w).
Proof.
  intros H. unfold delete_todo, bind, delete_commit.
  rewrite (query_first_found _ _ _ H).
  apply find_has_id in H as [-> _]. reflexivity.
Qed.

Lemma delete_todo_missing w todo_id :
  find (has_id todo_id) (table w) = None ->
  delete_todo todo_id w =
    (if storable todo_id then inr false else inl OverflowError, w).
Proof.
  intros H. unfold delete_todo, bind. rewrite (query_first_missing _ _ H).
  now destruct (storable todo_id).
Qed.

Lemma map_where_id_nil pk rows :
  map (where_id pk (fold_left setattr [])) rows = rows.
Proof.
  induction rows as [|row rows IH]; [reflexivity|].
  cbn [map]. rewrite IH. unfold where_id. now destruct (has_id pk row).
Qed.

Lemma todo_eta (r : Todo.t) :
  Todo.mk (Todo.id r) (Todo.title r) (Todo.description r)
    (Todo.created_at r) (Todo.updated_at r) = r.
Proof. now destruct r. Qed.

(** The UPDATE that [db.commit()] sends for [obj], loaded as [loaded]: it
    leaves in the row the attributes of [obj], with [updated_at] either the
    one assigned to [obj] or, when that one is no change but another
    attribute is, a fresh reading of the clock. *)
Lemma commit_update_spec w loaded obj :
  Todo.id obj = Todo.id loaded ->
  Todo.created_at obj = Todo.created_at loaded ->
  exists items stamp n,
    commit_update loaded obj w =
      (inr tt,
       with_ticks n
         (with_table
            (map (where_id (Todo.id loaded) (fold_left setattr items)) (table w))
            w)) /\
    fold_left setattr items loaded = setattr obj (updated_at_item stamp) /\
    (forall x, fold_left setattr items x = x \/
               Todo.updated_at (fold_left setattr items x) = stamp) /\
    ((stamp = Todo.updated_at obj /\ n = ticks w) \/
     (stamp = clock w (ticks w) /\ n = S (ticks w) /\
      ~ (Todo.title obj = Todo.title loaded /\
         Todo.description obj = Todo.description loaded))).
Proof.
  intros Hid Hcr. unfold commit_update, net_changes. rewrite Hid.
  destruct (opt_string_eqb (Todo.title obj) (Todo.title loaded)) eqn:Ht;
  destruct (opt_string_eqb (Todo.description obj) (Todo.description loaded))
    eqn:Hd;
  destruct (Todo.updated_at obj =? Todo.updated_at loaded) eqn:Hu;
  try apply opt_string_eqb_eq in Ht; try apply opt_string_eqb_eq in Hd;
  try apply Z.eqb_eq in Hu; simpl.
  - (* nothing differs: no statement *)
    exists [], (Todo.updated_at obj), (ticks w).
    rewrite map_where_id_nil. repeat split.
    + unfold ret. now destruct w.
    + simpl. rewrite <- (todo_eta loaded). simpl. congruence.
    + now left.
    + now left.
  - exists [updated_at_item (Todo.updated_at obj)], (Todo.updated_at obj), (ticks w).
    repeat split.
    + simpl. congruence.
    + now right.
    + now left.
  - exists [description_item (Todo.description obj);
            updated_at_item (clock w (ticks w))],
      (clock w (ticks w)), (S (ticks w)).
    repeat split.
    + simpl. congruence.
    + now right.
    + right. repeat split. intros [_ Hd']. rewrite Hd' in Hd.
      now rewrite opt_string_eqb_refl in Hd.
  - exists [description_item (Todo.description obj);
            updated_at_item (Todo.updated_at obj)],
      (Todo.updated_at obj), (ticks w).
    repeat split.
    + simpl. congruence.
    + now right.
    + now left.
  - exists [title_item (Todo.title obj); updated_at_item (clock w (ticks w))],
      (clock w (ticks w)), (S (ticks w)).
    repeat split.
    + simpl. congruence.
    + now right.
    + right. repeat split. intros [Ht' _]. rewrite Ht' in Ht.
      now rewrite opt_string_eqb_refl in Ht.
  - exists [title_item (Todo.title obj); updated_at_item (Todo.updated_at obj)],
      (Todo.updated_at obj), (ticks w).
    repeat split.
    + simpl. congruence.
    + now right.
    + now left.
  - exists [title_item (Todo.title obj); description_item (Todo.description obj);
            updated_at_item (clock w (ticks w))],
      (clock w (ticks w)), (S (ticks w)).
    repeat split.
    + simpl. congruence.
    + now right.
    + right. repeat split. intros [Ht' _]. rewrite Ht' in Ht.
      now rewrite opt_string_eqb_refl in Ht.
  - exists [title_item (Todo.title obj); description_item (Todo.description obj);
            updated_at_item (Todo.updated_at obj)],
      (Todo.updated_at obj), (ticks w).
    repeat split.
    + simpl. congruence.
    + now right.
    + now left.
Qed.

(** The object [update_todo] hands to [db.commit()]. *)
Lemma update_data_applied (todo : TodoUpdate.t) (now : datetime) (r : Todo.t) :
  fold_left setattr (dict_exclude_unset todo ++ [updated_at_item now]) r =
  Todo.mk (Todo.id r)
    (assigned (TodoUpdate.title todo) (Todo.title r))
    (assigned (TodoUpdate.description todo) (Todo.description r))
    (Todo.created_at r) now.
Proof.
  unfold dict_exclude_unset.
  destruct todo as [[|t] [|d]]; reflexivity.
Qed.

(** [update_todo] on an id that is in the table: the statement it sends
    ([items]), the clock reading that ends up in [updated_at] (the [k]-th),
    the value it returns and the world it leaves. *)
Lemma update_todo_found w todo_id todo r :
  find (has_id todo_id) (table w) = Some r ->
  exists items k,
    let g := fold_left setattr items in
    let r' :=
      Todo.mk todo_id
        (assigned (TodoUpdate.title todo) (Todo.title r))
        (assigned (TodoUpdate.description todo) (Todo.description r))
        (Todo.created_at r) (clock w k) in
    (ticks w <= k <= S (ticks w))%nat /\
    g r = r' /\
    (forall x, g x = x \/ Todo.updated_at (g x) = clock w k) /\
    (assigned (TodoUpdate.title todo) (Todo.title r) = Todo.title r ->
     assigned (TodoUpdate.description todo) (Todo.description r)
       = Todo.description r ->
     k = ticks w) /\
    update_todo todo_id todo w =
      (match Todo.title r' with
       | Some s => inr (Some (view_of s r'))
       | None => inl ValidationError
       end,
       with_ticks (S k) (with_table (map (where_id todo_id g) (table w)) w)).
Proof.
  intros Hfind.
  destruct (find_has_id _ _ _ Hfind) as [Hid _].
  pose proof (find_storable _ _ _ Hfind) as Hbind.
  unfold update_todo, bind. rewrite (query_first_found _ _ _ Hfind).
  unfold utcnow at 1. cbv beta iota.
  rewrite update_data_applied.
  set (now := clock w (ticks w)).
  set (obj := Todo.mk _ _ _ _ now).
  destruct (commit_update_spec (with_ticks (S (ticks w)) w) r obj
              eq_refl eq_refl)
    as (items & stamp & n & Hcommit & Hg & Hall & Hcase).
  rewrite Hcommit. unfold refresh.
  cbn [table clock ticks with_ticks with_table] in *.
  change (Todo.id obj) with (Todo.id r).
  rewrite <- Hid in Hbind. rewrite Hbind.
  rewrite (find_map_upd_eq (Todo.id r) (fold_left setattr items)
             (fold_setattr_id items) (table w) r)
    by (rewrite Hid; exact Hfind).
  rewrite Hg. unfold from_orm, ret. cbn [setattr obj Todo.title Todo.id
    Todo.description Todo.created_at Todo.updated_at].
  rewrite Hid.
  destruct Hcase as [[Hs Hn] | (Hs & Hn & Hchg)].
  - exists items, (ticks w). cbv zeta.
    assert (Hstamp : stamp = clock w (ticks w)) by (subst stamp; reflexivity).
    repeat split.
    + lia.
    + lia.
    + rewrite Hg, Hstamp. cbn. now rewrite Hid.
    + intros x. rewrite <- Hstamp. apply Hall.
    + rewrite Hstamp, Hn.
      destruct (assigned (TodoUpdate.title todo) (Todo.title r));
        reflexivity.
  - exists items, (S (ticks w)). cbv zeta.
    assert (Hstamp : stamp = clock w (S (ticks w))) by (subst stamp; reflexivity).
    repeat split.
    + lia.
    + lia.
    + rewrite Hg, Hstamp. cbn. now rewrite Hid.
    + intros x. rewrite <- Hstamp. apply Hall.
    + intros Ht Hd. exfalso. apply Hchg. split; assumption.
    + rewrite Hstamp, Hn.
      destruct (assigned (TodoUpdate.title todo) (Todo.title r));
        reflexivity.
Qed.

Lemma update_todo_missing w todo_id todo :
  find (has_id todo_id) (table w) = None ->
  update_todo todo_id todo w =
    (if storable todo_id then inr None else inl OverflowError, w).
Proof.
  intros H. unfold update_todo, bind. rewrite (query_first_missing _ _ H).
  now destruct (storable todo_id).
Qed.

(** ** Routes and steps *)

Lemma snd_bind_pure {A B} (c : Py A) (k : A -> Py B) w :
  (forall a w', snd (k a w') = w') -> snd (bind c k w) = snd (c w).
Proof.
  intros Hk. unfold bind. destruct (c w) as [[e|a] w']; simpl; [reflexivity|].
  apply Hk.
Qed.

Lemma update_todo_route_unfold todo_id todo w :
  update_todo_route todo_id todo w =
    match update_todo todo_id todo w with
    | (inr (Some v), w') => (inr v, w')
    | (inr None, w') => (inl (HTTPException 404 "Todo not found"), w')
    | (inl e, w') => (inl e, w')
    end.
Proof.
  unfold update_todo_route, bind.
  destruct (update_todo todo_id todo w) as [[e|[v|]] w']; reflexivity.
Qed.

Lemma get_todo_route_unfold todo_id w :
  get_todo_route todo_id w =
    match get_todo_by_id todo_id w with
    | (inr (Some v), w') => (inr v, w')
    | (inr None, w') => (inl (HTTPException 404 "Todo not found"), w')
    | (inl e, w') => (inl e, w')
    end.
Proof.
  unfold get_todo_route, bind.
  destruct (get_todo_by_id todo_id w) as [[e|[v|]] w']; reflexivity.
Qed.

Lemma delete_todo_route_unfold todo_id w :
  delete_todo_route todo_id w =
    match delete_todo todo_id w with
    | (inr true, w') => (inr "Todo deleted successfully"%string, w')
    | (inr false, w') => (inl (HTTPException 404 "Todo not found"), w')
    | (inl e, w') => (inl e, w')
    end.
Proof.
  unfold delete_todo_route, bind.
  destruct (delete_todo todo_id w) as [[e|[|]] w']; reflexivity.
Qed.

Lemma from_orm_each_world todos w : snd (from_orm_each todos w) = w.
Proof.
  induction todos as [|todo todos IH]; simpl; [reflexivity|].
  unfold bind, from_orm. destruct (Todo.title todo); simpl; [|reflexivity].
  specialize IH. destruct (from_orm_each todos w) as [[e|vs] w']; simpl in *;
    exact IH.
Qed.

Lemma step_post w todo : step w (post_todos todo) = snd (create_todo todo w).
Proof. unfold step, router, create_todo_route. now apply snd_bind_pure. Qed.

Lemma step_get_todos w : step w get_todos = w.
Proof.
  unfold step, router, get_all_todos_route.
  rewrite snd_bind_pure by reflexivity.
  unfold get_all_todos, bind, query_all. apply from_orm_each_world.
Qed.

Lemma get_todo_by_id_world todo_id w : snd (get_todo_by_id todo_id w) = w.
Proof.
  destruct (find (has_id todo_id) (table w)) as [row|] eqn:H.
  - rewrite (get_todo_by_id_found _ _ _ H). now destruct (Todo.title row).
  - now rewrite (get_todo_by_id_missing _ _ H).
Qed.

Lemma step_get_todo w todo_id : step w (get_todo todo_id) = w.
Proof.
  unfold step, router. rewrite snd_bind_pure by reflexivity.
  rewrite get_todo_route_unfold.
  pose proof (get_todo_by_id_world todo_id w) as H.
  destruct (get_todo_by_id todo_id w) as [[e|[v|]] w']; exact H.
Qed.

Lemma step_put w todo_id todo :
  step w (put_todo todo_id todo) = snd (update_todo todo_id todo w).
Proof.
  unfold step, router. rewrite snd_bind_pure by reflexivity.
  rewrite update_todo_route_unfold.
  destruct (update_todo todo_id todo w) as [[e|[v|]] w']; reflexivity.
Qed.

Lemma step_delete w todo_id :
  step w (delete_todo_call todo_id) = snd (delete_todo todo_id w).
Proof.
  unfold step, router. rewrite snd_bind_pure by reflexivity.
  rewrite delete_todo_route_unfold.
  destruct (delete_todo todo_id w) as [[e|[|]] w']; reflexivity.
Qed.

Lemma step_refused w status : step w (refused status) = w.
Proof. reflexivity. Qed.

(** ** What a step does to the world *)

Lemma same_env_refl w : same_env w w.
Proof. unfold same_env. repeat split; lia. Qed.

(** No operation touches the clock, the key sequence or the log; readings
    and inserts are only counted up. *)
Lemma step_same_env w c : same_env w (step w c).
Proof.
  destruct c as [todo| |todo_id|todo_id todo|todo_id|status].
  - rewrite step_post.
    destruct (existsb (has_key (id_seq w (inserts w))) (table w)) eqn:H.
    + rewrite (create_todo_taken _ _ H). unfold same_env. simpl.
      repeat split; lia.
    + rewrite (create_todo_fresh _ _ H). unfold same_env. simpl.
      repeat split; lia.
  - rewrite step_get_todos. apply same_env_refl.
  - rewrite step_get_todo. apply same_env_refl.
  - rewrite step_put.
    destruct (find (has_id todo_id) (table w)) as [r|] eqn:H.
    + destruct (update_todo_found w todo_id todo r H)
        as (items & k & Hk & _ & _ & _ & Hrun).
      rewrite Hrun. unfold same_env. simpl. repeat split; lia.
    + rewrite (update_todo_missing _ _ _ H). apply same_env_refl.
  - rewrite step_delete.
    destruct (find (has_id todo_id) (table w)) as [r|] eqn:H.
    + rewrite (delete_todo_found _ _ _ H). unfold same_env. simpl.
      repeat split; lia.
    + rewrite (delete_todo_missing _ _ H). apply same_env_refl.
  - rewrite step_refused. apply same_env_refl.
Qed.

Lemma run_app cs c w : run (cs ++ [c]) w = step (run cs w) c.
Proof. unfold run. now rewrite fold_left_app. Qed.

Lemma run_same_env cs w : same_env w (run cs w).
Proof.
  induction cs as [|c cs IH] using rev_ind.
  - apply same_env_refl.
  - rewrite run_app.
    destruct IH as (Hc & Hi & Hl & Ht & Hn).
    destruct (step_same_env (run cs w) c) as (Hc' & Hi' & Hl' & Ht' & Hn').
    unfold same_env. repeat split; try congruence; lia.
Qed.

Lemma step_stamped w c :
  monotone (clock w) -> stamped w -> stamped (step w c).
Proof.
  intros Hmono Hinv.
  destruct c as [todo| |todo_id|todo_id todo|todo_id|status].
  - rewrite step_post.
    destruct (existsb (has_key (id_seq w (inserts w))) (table w)) eqn:H.
    + rewrite (create_todo_taken _ _ H). intros r Hin. simpl in *.
      destruct (Hinv r Hin) as [Hle Hk]. split; [exact Hle|].
      intros k Hge. apply Hk. lia.
    + rewrite (create_todo_fresh _ _ H). intros r Hin. simpl in *.
      apply in_app_or in Hin as [Hin | [<- | []]].
      * destruct (Hinv r Hin) as [Hle Hk]. split; [exact Hle|].
        intros k Hge. apply Hk. lia.
      * simpl. split; [apply Hmono; lia|].
        intros k Hge. apply Hmono. lia.
  - now rewrite step_get_todos.
  - now rewrite step_get_todo.
  - rewrite step_put.
    destruct (find (has_id todo_id) (table w)) as [r0|] eqn:H.
    + destruct (update_todo_found w todo_id todo r0 H)
        as (items & k0 & Hk0 & _ & Hall & _ & Hrun).
      rewrite Hrun. intros r Hin. simpl in *.
      apply in_map_iff in Hin as (x & <- & Hx).
      destruct (Hinv x Hx) as [Hle Hk].
      assert (Hcr : Todo.created_at (where_id todo_id (fold_left setattr items) x)
                    = Todo.created_at x).
      { unfold where_id. destruct (has_id todo_id x); [|reflexivity].
        apply fold_setattr_created_at. }
      rewrite Hcr. split.
      * unfold where_id. destruct (has_id todo_id x); [|exact Hle].
        destruct (Hall x) as [-> | ->]; [exact Hle|]. apply Hk. lia.
      * intros k Hge. apply Hk. lia.
    + now rewrite (update_todo_missing _ _ _ H).
  - rewrite step_delete.
    destruct (find (has_id todo_id) (table w)) as [r0|] eqn:H.
    + rewrite (delete_todo_found _ _ _ H). intros r Hin. simpl in *.
      apply filter_In in Hin as [Hin _]. exact (Hinv r Hin).
    + now rewrite (delete_todo_missing _ _ H).
  - now rewrite step_refused.
Qed.

(** A step keeps the [created_at] of every row it keeps. *)
Lemma step_created_at w c todo_id r r' :
  find (has_id todo_id) (table w) = Some r ->
  find (has_id todo_id) (table (step w c)) = Some r' ->
  Todo.created_at r' = Todo.created_at r.
Proof.
  intros Hr.
  destruct c as [todo| |i|i todo|i|status].
  - rewrite step_post.
    destruct (existsb (has_key (id_seq w (inserts w))) (table w)) eqn:H.
    + rewrite (create_todo_taken _ _ H). simpl. congruence.
    + rewrite (create_todo_fresh _ _ H). simpl.
      rewrite (find_app_old _ _ _ _ Hr). congruence.
  - rewrite step_get_todos. congruence.
  - rewrite step_get_todo. congruence.
  - rewrite step_put.
    destruct (find (has_id i) (table w)) as [r0|] eqn:H.
    + destruct (update_todo_found w i todo r0 H)
        as (items & k0 & _ & _ & _ & _ & Hrun).
      rewrite Hrun. simpl.
      rewrite (find_map_upd i (fold_left setattr items)
                 (fold_setattr_id items)), Hr. simpl.
      intros [= <-]. unfold where_id. destruct (has_id i r); [|reflexivity].
      apply fold_setattr_created_at.
    + rewrite (update_todo_missing _ _ _ H). simpl. congruence.
  - rewrite step_delete.
    destruct (find (has_id i) (table w)) as [r0|] eqn:H.
    + rewrite (delete_todo_found _ _ _ H). simpl.
      destruct (Z.eq_dec todo_id i) as [->|Hne].
      * now rewrite find_filter_eq.
      * rewrite (find_filter_ne _ _ _ Hne). congruence.
    + rewrite (delete_todo_missing _ _ H). simpl. congruence.
  - rewrite step_refused. congruence.
Qed.

(** Without a create, an id that is not in the table stays out of it. *)
Lemma step_keeps_missing w c todo_id :
  is_post c = false ->
  find (has_id todo_id) (table w) = None ->
  find (has_id todo_id) (table (step w c)) = None.
Proof.
  intros Hc Hnone.
  destruct c as [todo| |i|i todo|i|status]; try discriminate Hc.
  - now rewrite step_get_todos.
  - now rewrite step_get_todo.
  - rewrite step_put.
    destruct (find (has_id i) (table w)) as [r0|] eqn:H.
    + destruct (update_todo_found w i todo r0 H)
        as (items & k0 & _ & _ & _ & _ & Hrun).
      rewrite Hrun. simpl.
      now rewrite (find_map_upd i (fold_left setattr items)
                     (fold_setattr_id items)), Hnone.
    + now rewrite (update_todo_missing _ _ _ H).
  - rewrite step_delete.
    destruct (find (has_id i) (table w)) as [r0|] eqn:H.
    + rewrite (delete_todo_found _ _ _ H). simpl.
      destruct (Z.eq_dec todo_id i) as [->|Hne].
      * apply find_filter_eq.
      * now rewrite (find_filter_ne _ _ _ Hne).
    + now rewrite (delete_todo_missing _ _ H).
  - now rewrite step_refused.
Qed.

Lemma run_keeps_missing cs w todo_id :
  forallb (fun c => negb (is_post c)) cs = true ->
  find (has_id todo_id) (table w) = None ->
  find (has_id todo_id) (table (run cs w)) = None.
Proof.
  revert w. induction cs as [|c cs IH]; intros w Hcs Hnone; simpl in *.
  - exact Hnone.
  - apply andb_prop in Hcs as [Hc Hcs]. apply IH; [exact Hcs|].
    apply step_keeps_missing; [|exact Hnone].
    now destruct (is_post c).
Qed.

(** The row an update leaves under the id it was asked to update. *)
Lemma put_row (w : World) (todo_id : Z) (todo : TodoUpdate.t) (r : Todo.t) :
  find (has_id todo_id) (table w) = Some r ->
  exists r',
    find (has_id todo_id) (table (step w (put_todo todo_id todo))) = Some r' /\
    Todo.title r' = assigned (TodoUpdate.title todo) (Todo.title r) /\
    Todo.description r'
      = assigned (TodoUpdate.description todo) (Todo.description r) /\
    Todo.created_at r' = Todo.created_at r.
Proof.
  intros Hfind. rewrite step_put.
  destruct (update_todo_found w todo_id todo r Hfind)
    as (items & k & _ & Hg & _ & _ & Hrun).
  rewrite Hrun. cbn [snd table with_ticks with_table].
  exists (fold_left setattr items r). split.
  - apply (find_map_upd_eq todo_id _ (fold_setattr_id items)). exact Hfind.
  - rewrite Hg. repeat split.
Qed.

(** An update leaves the rows under every other id as they were. *)
Lemma put_other_rows (w : World) (todo_id j : Z) (todo : TodoUpdate.t) :
  j <> todo_id ->
  find (has_id j) (table (step w (put_todo todo_id todo)))
  = find (has_id j) (table w).
Proof.
  intros Hne. rewrite step_put.
  destruct (find (has_id todo_id) (table w)) as [r|] eqn:Hfind.
  - destruct (update_todo_found w todo_id todo r Hfind)
      as (items & k & _ & _ & _ & _ & Hrun).
    rewrite Hrun. cbn [snd table with_ticks with_table].
    apply (find_map_upd_ne todo_id _ (fold_setattr_id items)). exact Hne.
  - now rewrite (update_todo_missing _ _ _ Hfind).
Qed.

(** ** The claims *)




(** C7.  When [create_todo] returns a view, [get_todo_by_id] on the view's
    id in the world it left returns that same view, and so does the get
    handler; neither changes the world. *)
Theorem get_after_create (w w' : World) (todo : TodoCreate.t)
    (v : TodoResponse.t) :
  create_todo_route todo w = (inr v, w') ->
  get_todo_by_id (TodoResponse.id v) w' = (inr (Some v), w') /\
  get_todo_route (TodoResponse.id v) w' = (inr v, w').
Proof.
  unfold create_todo_route. intros Hcreate.
  destruct (existsb (has_key (id_seq w (inserts w))) (table w)) eqn:Hpk.
  - rewrite (create_todo_taken _ _ Hpk) in Hcreate. discriminate.
  - rewrite (create_todo_fresh _ _ Hpk) in Hcreate.
    destruct (storable (id_seq w (inserts w))) eqn:Hbind; [|discriminate].
    injection Hcreate as <- <-. cbn [view_of TodoResponse.id Todo.id].
    set (pk := id_seq w (inserts w)).
    set (row := Todo.mk pk _ _ _ _).
    assert (Hfind : find (has_id pk) (table w ++ [row]) = Some row).
    { assert (Hrow : has_id pk row = true) by now apply has_id_true.
      rewrite (find_app_new pk (table w) row (find_existsb _ _ Hpk)).
      now rewrite Hrow. }
    assert (Hget : forall w0, table w0 = table w ++ [row] ->
              get_todo_by_id pk w0
              = (inr (Some (view_of (TodoCreate.title todo) row)), w0)).
    { intros w0 Hw0.
      rewrite (get_todo_by_id_found w0 pk row) by (now rewrite Hw0).
      reflexivity. }
    split.
    + now apply Hget.
    + rewrite get_todo_route_unfold. now rewrite Hget.
Qed.

Lemma get_after_create_witness :
  get_todo_by_id 1 world_A
    = (inr (Some (TodoResponse.mk 1 "A" None 0 1)), world_A) /\
  get_todo_route 1 world_A = (inr (TodoResponse.mk 1 "A" None 0 1), world_A).
Proof.
  apply (get_after_create (start ticking serial) world_A todo_A
           (TodoResponse.mk 1 "A" None 0 1)).
  reflexivity.
Defined.

(** C8.  When [delete_todo] returns [True], no row with that id is left in
    the table, [get_todo_by_id] on the id returns [None] and the get
    handler raises the 404; this stays so through any further operations
    among which there is no create. *)
Theorem deleted_then_not_found (w w' : World) (todo_id : Z) :
  delete_todo todo_id w = (inr true, w') ->
  (forall r, In r (table w') -> Todo.id r <> todo_id) /\
  get_todo_by_id todo_id w' = (inr None, w') /\
  get_todo_route todo_id w' = (inl (HTTPException 404 "Todo not found"), w') /\
  (forall cs, forallb (fun c => negb (is_post c)) cs = true ->
     get_todo_route todo_id (run cs w')
     = (inl (HTTPException 404 "Todo not found"), run cs w')).
Proof.
  intros Hdel.
  destruct (find (has_id todo_id) (table w)) as [r0|] eqn:Hfind.
  - rewrite (delete_todo_found _ _ _ Hfind) in Hdel. injection Hdel as <-.
    pose proof (find_storable _ _ _ Hfind) as Hbind.
    assert (Hnone : find (has_id todo_id)
              (table (with_table
                 (filter (fun r => negb (has_id todo_id r)) (table w)) w))
              = None) by apply find_filter_eq.
    assert (Hroute : forall w0, find (has_id todo_id) (table w0) = None ->
              get_todo_route todo_id w0
              = (inl (HTTPException 404 "Todo not found"), w0)).
    { intros w0 H0. rewrite get_todo_route_unfold.
      now rewrite (get_todo_by_id_missing _ _ H0), Hbind. }
    repeat split.
    + intros r Hin. simpl in Hin. apply filter_In in Hin as [_ Hneg].
      apply negb_true_iff in Hneg. now apply (has_id_false _ _ Hbind).
    + now rewrite (get_todo_by_id_missing _ _ Hnone), Hbind.
    + now apply Hroute.
    + intros cs Hcs. apply Hroute. now apply run_keeps_missing.
  - rewrite (delete_todo_missing _ _ Hfind) in Hdel.
    destruct (storable todo_id); discriminate.
Qed.

Lemma deleted_then_not_found_witness :
  (forall r, In r (table (step world_A (delete_todo_call 1))) ->
     Todo.id r <> 1) /\
  get_todo_by_id 1 (step world_A (delete_todo_call 1))
    = (inr None, step world_A (delete_todo_call 1)) /\
  get_todo_route 1 (step world_A (delete_todo_call 1))
    = (inl (HTTPException 404 "Todo not found"),
       step world_A (delete_todo_call 1)) /\
  (forall cs, forallb (fun c => negb (is_post c)) cs = true ->
     get_todo_route 1 (run cs (step world_A (delete_todo_call 1)))
     = (inl (HTTPException 404 "Todo not found"),
        run cs (step world_A (delete_todo_call 1)))).
Proof.
  apply (deleted_then_not_found world_A (step world_A (delete_todo_call 1)) 1).
  reflexivity.
Defined.

(** C10.  [get_todo_by_id] and [get_all_todos], and the two handlers that
    call them, leave the world exactly as they found it, whatever they
    return or raise: no row is modified, added or removed. *)
Theorem reads_change_nothing (w : World) (todo_id : Z) :
  snd (get_todo_by_id todo_id w) = w /\
  snd (get_all_todos w) = w /\
  snd (get_todo_route todo_id w) = w /\
  snd (get_all_todos_route w) = w.
Proof.
  assert (Hall : snd (get_all_todos w) = w).
  { unfold get_all_todos, bind, query_all. apply from_orm_each_world. }
  repeat split.
  - apply get_todo_by_id_world.
  - exact Hall.
  - rewrite get_todo_route_unfold.
    pose proof (get_todo_by_id_world todo_id w) as H.
    destruct (get_todo_by_id todo_id w) as [[e|[v|]] w0]; exact H.
  - exact Hall.
Qed.

(** C2.  An update of an id that is in the table leaves in the row, for
    each of [title] and [description], the payload's value when the payload
    sets the field and the row's former value when it does not; so a
    payload with only [description] keeps the title, and an omitted field
    is never turned into NULL.  Rows with other ids are untouched. *)
Theorem update_leaves_omitted_fields (w : World) (todo_id : Z)
    (todo : TodoUpdate.t) (r : Todo.t) :
  find (has_id todo_id) (table w) = Some r ->
  exists r',
    find (has_id todo_id) (table (step w (put_todo todo_id todo))) = Some r' /\
    (TodoUpdate.title todo = Unset -> Todo.title r' = Todo.title r) /\
    (TodoUpdate.description todo = Unset ->
     Todo.description r' = Todo.description r) /\
    Todo.title r' = assigned (TodoUpdate.title todo) (Todo.title r) /\
    Todo.description r'
      = assigned (TodoUpdate.description todo) (Todo.description r) /\
    (forall j, j <> todo_id ->
       find (has_id j) (table (step w (put_todo todo_id todo)))
       = find (has_id j) (table w)).
Proof.
  intros Hfind.
  destruct (put_row w todo_id todo r Hfind) as (r' & Hr' & Ht & Hd & _).
  exists r'. repeat split; try assumption.
  - intros Hu. now rewrite Ht, Hu.
  - intros Hu. now rewrite Hd, Hu.
  - intros j Hne. now apply put_other_rows.
Qed.

Lemma update_leaves_omitted_fields_witness :
  exists r',
    find (has_id 1) (table (step world_A (put_todo 1 (only_description "d"))))
      = Some r' /\
    (TodoUpdate.title (only_description "d") = Unset ->
     Todo.title r' = Some "A"%string) /\
    (TodoUpdate.description (only_description "d") = Unset ->
     Todo.description r' = None) /\
    Todo.title r' = Some "A"%string /\
    Todo.description r' = Some "d"%string /\
    (forall j, j <> 1 ->
       find (has_id j) (table (step world_A (put_todo 1 (only_description "d"))))
       = find (has_id j) (table world_A)).
Proof.
  apply (update_leaves_omitted_fields world_A 1 (only_description "d")
           (Todo.mk 1 (Some "A"%string) None 0 1)).
  reflexivity.
Defined.

(** An update with no field set, on a row that has a title: the row keeps
    title and description, its [updated_at] becomes the reading of the clock
    that the call takes, and the handler returns the view of that row. *)
Lemma empty_update_refreshes (w : World) (todo_id : Z) (r : Todo.t)
    (s : string) :
  find (has_id todo_id) (table w) = Some r ->
  Todo.title r = Some s ->
  exists w',
    let r' := Todo.mk todo_id (Some s) (Todo.description r)
                (Todo.created_at r) (clock w (ticks w)) in
    update_todo_route todo_id empty_update w = (inr (view_of s r'), w') /\
    find (has_id todo_id) (table w') = Some r' /\
    ticks w' = S (ticks w).
Proof.
  intros Hfind Htitle.
  destruct (update_todo_found w todo_id empty_update r Hfind)
    as (items & k & _ & Hg & _ & Hk & Hrun).
  cbn [assigned empty_update TodoUpdate.title TodoUpdate.description] in *.
  rewrite (Hk eq_refl eq_refl) in *. rewrite Htitle in *.
  eexists. cbv zeta. rewrite update_todo_route_unfold, Hrun.
  cbn [Todo.title]. repeat split.
  cbn [table with_ticks with_table]. rewrite <- Hg.
  apply (find_map_upd_eq todo_id _ (fold_setattr_id items)). exact Hfind.
Qed.

(** C5.  The claim fails on a row whose title is NULL, which
    [PUT /todos/1 {title: null}] leaves behind: there the update with no
    field set commits the new [updated_at] and then raises
    [ValidationError] instead of returning the entity. *)
Theorem empty_update_of_null_title_raises :
  find (has_id 1) (table world_null) = Some (Todo.mk 1 None None 0 2) /\
  fst (update_todo_route 1 empty_update world_null) = inl ValidationError /\
  table (snd (update_todo_route 1 empty_update world_null))
    = [Todo.mk 1 None None 0 3].
Proof. repeat split. Qed.

(** An update that sets [title] to [null] stores NULL in the row. *)
Lemma update_stores_null_title (w : World) (todo_id : Z) (r : Todo.t)
    (d : Field (option string)) :
  find (has_id todo_id) (table w) = Some r ->
  exists r',
    find (has_id todo_id)
      (table (step w (put_todo todo_id (TodoUpdate.mk (Provided None) d))))
      = Some r' /\
    Todo.title r' = None.
Proof.
  intros Hfind.
  destruct (put_row w todo_id (TodoUpdate.mk (Provided None) d) r Hfind)
    as (r' & Hr' & Ht & _).
  exists r'. split; [exact Hr' | exact Ht].
Qed.

(** Titles stay non-null through every operation but an update whose
    payload sets [title] to [null]. *)
Lemma step_titled (w : World) (c : Call) :
  nulls_title c = false -> titled w -> titled (step w c).
Proof.
  intros Hc Hinv j r.
  destruct c as [todo| |i|i todo|i|status].
  - rewrite step_post.
    destruct (existsb (has_key (id_seq w (inserts w))) (table w)) eqn:H.
    + rewrite (create_todo_taken _ _ H). apply Hinv.
    + rewrite (create_todo_fresh _ _ H). cbn [snd table].
      destruct (find (has_id j) (table w)) as [x|] eqn:Hx.
      * rewrite (find_app_old _ _ _ _ Hx). intros [= <-]. exact (Hinv j x Hx).
      * rewrite (find_app_new _ _ _ Hx).
        destruct (has_id j _); [|discriminate]. now intros [= <-].
  - rewrite step_get_todos. apply Hinv.
  - rewrite step_get_todo. apply Hinv.
  - destruct (Z.eq_dec j i) as [->|Hne].
    + destruct (find (has_id i) (table w)) as [r0|] eqn:H.
      * destruct (put_row w i todo r0 H) as (r' & Hr' & Ht & _).
        rewrite Hr'. intros [= <-]. rewrite Ht.
        simpl in Hc. specialize (Hinv i r0 H).
        destruct (TodoUpdate.title todo) as [|[s|]]; simpl;
          [exact Hinv | discriminate | discriminate].
      * rewrite step_put, (update_todo_missing _ _ _ H). simpl. congruence.
    + rewrite (put_other_rows _ _ _ _ Hne). apply Hinv.
  - rewrite step_delete.
    destruct (find (has_id i) (table w)) as [r0|] eqn:H.
    + rewrite (delete_todo_found _ _ _ H). simpl.
      destruct (Z.eq_dec j i) as [->|Hne].
      * now rewrite find_filter_eq.
      * rewrite (find_filter_ne _ _ _ Hne). apply Hinv.
    + rewrite (delete_todo_missing _ _ H). apply Hinv.
  - rewrite step_refused. apply Hinv.
Qed.

Lemma run_titled (cs : list Call) (w : World) :
  forallb (fun c => negb (nulls_title c)) cs = true ->
  titled w -> titled (run cs w).
Proof.
  revert w. induction cs as [|c cs IH]; intros w Hcs Hinv; simpl in *.
  - exact Hinv.
  - apply andb_prop in Hcs as [Hc Hcs]. apply IH; [exact Hcs|].
    apply step_titled; [|exact Hinv]. now destruct (nulls_title c).
Qed.

(** C1.  The claim fails after [POST /todos {title: A}] and
    [PUT /todos/1 {title: null}]: the payload sets [title], so
    [exclude_unset] keeps the entry, [setattr] assigns [None] and the commit
    stores NULL; the row is then one that neither the get nor the list
    handler can render. *)
Theorem null_title_is_persisted :
  let w := run [post_todos todo_A; put_todo 1 null_title] (start ticking serial) in
  table w = [Todo.mk 1 None None 0 2] /\
  fst (get_todo_route 1 w) = inl ValidationError /\
  fst (get_all_todos_route w) = inl ValidationError.
Proof. repeat split. Qed.

(** C4, as stated, fails: on a clock that advances between two readings the
    view of a new Todo has [created_at] 0 and [updated_at] 1. *)
Lemma create_stamps_differ :
  fst (create_todo_route todo_A (start ticking serial))
    = inr (TodoResponse.mk 1 "A" None 0 1) /\
  ~ (forall w w' todo v,
       create_todo_route todo w = (inr v, w') ->
       TodoResponse.created_at v = TodoResponse.updated_at v).
Proof.
  split; [reflexivity|].
  intros H.
  specialize (H (start ticking serial)
                (snd (create_todo_route todo_A (start ticking serial)))
                todo_A (TodoResponse.mk 1 "A" None 0 1) eq_refl).
  discriminate H.
Qed.

(** C4, amended.  When [create_todo] returns, the view has the id the store
    proposed, the payload's title and description, as [created_at] the
    reading of the clock the call takes first and as [updated_at] the
    reading it takes next; the row with these values is appended to the
    table.  So [created_at <= updated_at] on a clock that never runs
    backwards, and the two are equal exactly when the two readings are. *)
Theorem create_reads_clock_twice (w w' : World) (todo : TodoCreate.t)
    (v : TodoResponse.t) :
  create_todo_route todo w = (inr v, w') ->
  v = TodoResponse.mk (id_seq w (inserts w)) (TodoCreate.title todo)
        (TodoCreate.description todo)
        (clock w (ticks w)) (clock w (S (ticks w))) /\
  table w' = table w ++
    [Todo.mk (id_seq w (inserts w)) (Some (TodoCreate.title todo))
       (TodoCreate.description todo)
       (clock w (ticks w)) (clock w (S (ticks w)))] /\
  (monotone (clock w) ->
   TodoResponse.created_at v <= TodoResponse.updated_at v) /\
  (TodoResponse.created_at v = TodoResponse.updated_at v <->
   clock w (ticks w) = clock w (S (ticks w))).
Proof.
  unfold create_todo_route. intros Hcreate.
  destruct (existsb (has_key (id_seq w (inserts w))) (table w)) eqn:Hpk.
  - rewrite (create_todo_taken _ _ Hpk) in Hcreate. discriminate.
  - rewrite (create_todo_fresh _ _ Hpk) in Hcreate.
    destruct (storable (id_seq w (inserts w))) eqn:Hbind; [|discriminate].
    injection Hcreate as <- <-. unfold view_of. simpl. repeat split.
    + intros Hmono. apply Hmono. lia.
    + trivial.
    + trivial.
Qed.

Lemma create_reads_clock_twice_witness :
  TodoResponse.mk 1 "A" None 0 1
    = TodoResponse.mk 1 "A" None (ticking 0) (ticking 1) /\
  table world_A = [] ++ [Todo.mk 1 (Some "A"%string) None (ticking 0) (ticking 1)] /\
  (monotone ticking -> 0 <= 1) /\
  (0 = 1 <-> ticking 0 = ticking 1).
Proof.
  apply (create_reads_clock_twice (start ticking serial) world_A todo_A
           (TodoResponse.mk 1 "A" None 0 1)).
  reflexivity.
Defined.

Lemma run_stamped (cs : list Call) (w : World) :
  monotone (clock w) -> stamped w -> stamped (run cs w).
Proof.
  intros Hmono Hinv. induction cs as [|c cs IH] using rev_ind.
  - exact Hinv.
  - rewrite run_app. apply step_stamped; [|exact IH].
    destruct (run_same_env cs w) as (-> & _). exact Hmono.
Qed.

(** C9, as stated, fails: on a clock that is set back between the two
    readings of a create, the new row has its [updated_at] before its
    [created_at]. *)
Lemma set_back_clock_inverts_stamps :
  table (run [post_todos todo_A] (start set_back serial))
    = [Todo.mk 1 (Some "A"%string) None 10 9] /\
  ~ (forall r, In r (table (run [post_todos todo_A] (start set_back serial))) ->
       Todo.created_at r <= Todo.updated_at r).
Proof.
  split; [reflexivity|].
  intros H.
  specialize (H (Todo.mk 1 (Some "A"%string) None 10 9) (or_introl eq_refl)).
  simpl in H. lia.
Qed.

(** C9, amended.  After any sequence of operations from start-up: on a
    clock that never runs backwards every row in the table has
    [created_at <= updated_at]; and, on any clock, whatever operation comes
    next, a row that is under some id before and after it has the same
    [created_at]. *)
Theorem timestamps_ordered (clk : nat -> datetime) (ids : nat -> Z)
    (cs : list Call) :
  (monotone clk ->
   forall r, In r (table (run cs (start clk ids))) ->
     Todo.created_at r <= Todo.updated_at r) /\
  (forall c todo_id r r',
     find (has_id todo_id) (table (run cs (start clk ids))) = Some r ->
     find (has_id todo_id) (table (step (run cs (start clk ids)) c))
       = Some r' ->
     Todo.created_at r' = Todo.created_at r).
Proof.
  split.
  - intros Hmono r Hin.
    assert (Hinv : stamped (run cs (start clk ids))).
    { apply run_stamped; [exact Hmono|]. intros x []. }
    exact (proj1 (Hinv r Hin)).
  - intros c todo_id r r'. apply step_created_at.
Qed.

Lemma timestamps_ordered_witness :
  (forall r,
     In r (table (run [post_todos todo_A; put_todo 1 empty_update]
                    (start ticking serial))) ->
     Todo.created_at r <= Todo.updated_at r) /\
  (forall c todo_id r r',
     find (has_id todo_id)
       (table (run [post_todos todo_A; put_todo 1 empty_update]
                 (start ticking serial))) = Some r ->
     find (has_id todo_id)
       (table (step (run [post_todos todo_A; put_todo 1 empty_update]
                       (start ticking serial)) c)) = Some r' ->
     Todo.created_at r' = Todo.created_at r).
Proof.
  destruct (timestamps_ordered ticking serial
              [post_todos todo_A; put_todo 1 empty_update])
    as [Hordered Hcreated].
  split; [|exact Hcreated].
  apply Hordered. intros j k Hjk. unfold ticking. lia.
Defined.

(** C6, as stated, fails twice.  [GET /todos/1] on a row whose title is
    NULL makes the handler raise [ValidationError]; the exception leaves
    [await call_next(request)], the rest of the middleware does not run and
    no record is logged.  And on a clock that is set back between the two
    readings of the middleware, the record has a negative duration. *)
Lemma log_skipped_or_negative :
  (fst (app (mkRequest "GET" "/todos/1" (get_todo 1)) world_null)
     = inl ValidationError /\
   log world_null = [] /\
   log (snd (app (mkRequest "GET" "/todos/1" (get_todo 1)) world_null)) = []) /\
  log (snd (app (mkRequest "GET" "/todos/7" (get_todo 7))
              (start set_back serial)))
    = [mkLogRecord "GET" "/todos/7" (-1)].
Proof. repeat split. Qed.

(** C6, amended.  By what the handler of the request does once the
    middleware has read the clock:
    - it returns: the middleware returns the 200 response and appends one
      record to the log;
    - it raises [HTTPException]: the middleware returns the response with
      the exception's status and detail and appends one record;
    - it raises anything else: the exception leaves the middleware and the
      log is as before.
    The record has the request's method and path and, as duration, the
    reading of the clock after the handler minus the reading before it;
    that is non-negative on a clock that never runs backwards. *)
Theorem logging_middleware_logs_responses (request : Request) (w : World) :
  let logged response w1 :=
    app request w =
      (inr response,
       with_log
         (log w ++ [mkLogRecord (method request) (url_path request)
                      (clock w (ticks w1) - clock w (ticks w))])
         (with_ticks (S (ticks w1)) w1)) /\
    (monotone (clock w) -> 0 <= clock w (ticks w1) - clock w (ticks w)) in
  match router (call request) (with_ticks (S (ticks w)) w) with
  | (inr response, w1) => logged response w1
  | (inl (HTTPException status detail), w1) =>
      logged (mkResponse status (json_detail detail)) w1
  | (inl e, w1) => app request w = (inl e, w1) /\ log w1 = log w
  end.
Proof.
  intros logged.
  pose proof (step_same_env (with_ticks (S (ticks w)) w) (call request))
    as (Hclock & _ & Hlog & Hticks & _).
  unfold step in *. subst logged.
  unfold app, logging_middleware, bind, time_time, utcnow, call_next,
    logger_info, ret.
  destruct (router (call request) (with_ticks (S (ticks w)) w))
    as [[e|response] w1]; cbn [snd fst clock ticks log with_ticks] in *.
  - destruct e as [status detail| | | |];
      try (split; [reflexivity | exact Hlog]).
    split.
    + rewrite Hlog, Hclock. reflexivity.
    + intros Hmono. apply Z.le_0_sub. apply Hmono. lia.
  - split.
    + rewrite Hlog, Hclock. reflexivity.
    + intros Hmono. apply Z.le_0_sub. apply Hmono. lia.
Qed.

Lemma logging_middleware_logs_responses_witness :
  app (mkRequest "GET" "/todos/7" (get_todo 7)) world_A =
    (inr (mkResponse 404 (json_detail "Todo not found")),
     with_log (log world_A ++ [mkLogRecord "GET" "/todos/7" (ticking 3 - ticking 2)])
       (with_ticks 4 world_A)) /\
  (monotone ticking -> 0 <= ticking 3 - ticking 2).
Proof.
  apply (logging_middleware_logs_responses
           (mkRequest "GET" "/todos/7" (get_todo 7)) world_A).
Defined.

(** * Further properties of the code *)

(** ** Listing *)

Lemma from_orm_to_view (row : Todo.t) (w : World) :
  from_orm row w =
    match to_view row with
    | Some v => (inr v, w)
    | None => (inl ValidationError, w)
    end.
Proof. unfold from_orm, to_view. now destruct (Todo.title row). Qed.

Lemma from_orm_each_inv (rows : list Todo.t) (w w' : World)
    (vs : list TodoResponse.t) :
  from_orm_each rows w = (inr vs, w') ->
  map to_view rows = map Some vs /\ w' = w.
Proof.
  revert vs. induction rows as [|row rows IH]; intros vs; simpl.
  - unfold ret. intros [= <- <-]. now split.
  - unfold bind. rewrite from_orm_to_view.
    destruct (to_view row) as [v|]; [|discriminate].
    destruct (from_orm_each rows w) as [[e|vs0] w0]; [discriminate|].
    unfold ret. intros [= <- <-].
    destruct (IH vs0 eq_refl) as [-> ->]. now split.
Qed.

Lemma from_orm_each_titled (rows : list Todo.t) (w : World) :
  Forall (fun r => Todo.title r <> None) rows ->
  exists vs, from_orm_each rows w = (inr vs, w).
Proof.
  induction 1 as [|row rows Hrow _ [vs IH]]; simpl.
  - now exists [].
  - unfold bind, from_orm.
    destruct (Todo.title row) as [s|]; [|contradiction].
    unfold ret at 1. rewrite IH. eexists. reflexivity.
Qed.

Lemma from_orm_each_null (rows : list Todo.t) (w : World) (r : Todo.t) :
  In r rows -> Todo.title r = None ->
  from_orm_each rows w = (inl ValidationError, w).
Proof.
  intros Hin Hnull. induction rows as [|row rows IH]; [destruct Hin|].
  simpl. unfold bind, from_orm.
  destruct (Todo.title row) as [s|] eqn:Hrow; [|reflexivity].
  unfold ret at 1.
  destruct Hin as [-> | Hin]; [congruence|].
  now rewrite (IH Hin).
Qed.

Lemma to_view_columns (rows : list Todo.t) (vs : list TodoResponse.t) :
  map to_view rows = map Some vs ->
  map TodoResponse.id vs = map Todo.id rows /\
  map (fun v => Some (TodoResponse.title v)) vs = map Todo.title rows /\
  map TodoResponse.description vs = map Todo.description rows /\
  map TodoResponse.created_at vs = map Todo.created_at rows /\
  map TodoResponse.updated_at vs = map Todo.updated_at rows.
Proof.
  revert vs. induction rows as [|row rows IH]; intros [|v vs]; simpl;
    try discriminate.
  - now repeat split.
  - intros [= Hv Hrest]. destruct (IH vs Hrest) as (-> & -> & -> & -> & ->).
    unfold to_view in Hv. destruct (Todo.title row) as [s|] eqn:Hs;
      [|discriminate].
    injection Hv as <-. now repeat split.
Qed.

(** X1.  When every row has a title, the list handler returns one view per
    row, in the order of the table, each with the columns of its row, and
    leaves the world as it was. *)
Theorem listing_shows_every_row (w : World) :
  Forall (fun r => Todo.title r <> None) (table w) ->
  exists vs,
    get_all_todos_route w = (inr vs, w) /\
    map to_view (table w) = map Some vs /\
    map TodoResponse.id vs = map Todo.id (table w) /\
    List.length vs = List.length (table w).
Proof.
  intros Htitled.
  destruct (from_orm_each_titled (table w) w Htitled) as [vs Hvs].
  exists vs.
  destruct (from_orm_each_inv _ _ _ _ Hvs) as [Hviews _].
  repeat split.
  - exact Hvs.
  - exact Hviews.
  - apply (to_view_columns _ _ Hviews).
  - rewrite <- (List.length_map Some vs), <- Hviews. apply List.length_map.
Qed.

Lemma listing_shows_every_row_witness :
  exists vs,
    get_all_todos_route world_AB = (inr vs, world_AB) /\
    map to_view (table world_AB) = map Some vs /\
    map TodoResponse.id vs = map Todo.id (table world_AB) /\
    List.length vs = List.length (table world_AB).
Proof.
  apply (listing_shows_every_row world_AB).
  repeat constructor; discriminate.
Defined.

(** X2.  One row with a NULL title anywhere in the table makes the list
    handler raise [ValidationError], whatever the other rows are; the world
    is left as it was. *)
Theorem listing_fails_on_null_title (w : World) (r : Todo.t) :
  In r (table w) -> Todo.title r = None ->
  get_all_todos_route w = (inl ValidationError, w).
Proof.
  intros Hin Hnull.
  unfold get_all_todos_route, get_all_todos, bind, query_all.
  exact (from_orm_each_null _ _ _ Hin Hnull).
Qed.

Lemma listing_fails_on_null_title_witness :
  get_all_todos_route world_null = (inl ValidationError, world_null).
Proof.
  apply (listing_fails_on_null_title world_null (Todo.mk 1 None None 0 2)).
  - left. reflexivity.
  - reflexivity.
Defined.

(** ** Keys *)

Lemma existsb_has_key (i : Z) (rows : list Todo.t) :
  existsb (has_key i) rows = true <-> In i (map Todo.id rows).
Proof.
  rewrite existsb_exists, in_map_iff. split.
  - intros (r & Hin & Hid). exists r. split; [now apply has_key_true | exact Hin].
  - intros (r & Hid & Hin). exists r. split; [exact Hin | now apply has_key_true].
Qed.

Lemma existsb_has_key_false (i : Z) (rows : list Todo.t) :
  existsb (has_key i) rows = false <-> ~ In i (map Todo.id rows).
Proof.
  rewrite <- existsb_has_key. now destruct (existsb (has_key i) rows).
Qed.

Lemma find_none_not_in (i : Z) (rows : list Todo.t) :
  storable i = true ->
  find (has_id i) rows = None -> ~ In i (map Todo.id rows).
Proof.
  intros Hbind Hnone Hin. apply in_map_iff in Hin as (r & Hid & Hin).
  apply (find_none _ _ Hnone) in Hin.
  now apply (has_id_false _ _ Hbind) in Hin.
Qed.

Lemma map_id_where_id (pk : Z) (items : list Item) (rows : list Todo.t) :
  map Todo.id (map (where_id pk (fold_left setattr items)) rows)
  = map Todo.id rows.
Proof.
  rewrite map_map. apply map_ext. intros row.
  apply upd_id. apply fold_setattr_id.
Qed.

(** The DELETE leaves keys unique. *)
Lemma delete_keeps_unique (i : Z) (rows : list Todo.t) :
  NoDup (map Todo.id rows) ->
  NoDup (map Todo.id (filter (fun row => negb (has_id i row)) rows)).
Proof.
  induction rows as [|row rows IH]; intros Hnd; [exact Hnd|].
  cbn [map] in Hnd. apply NoDup_cons_iff in Hnd as [Hfresh Hnd].
  cbn [filter]. destruct (negb (has_id i row)); [|exact (IH Hnd)].
  cbn [map]. apply NoDup_cons; [|exact (IH Hnd)].
  intros Hin. apply Hfresh.
  apply in_map_iff in Hin as (other & Hother & Hin).
  apply filter_In in Hin as [Hin _].
  rewrite <- Hother. now apply in_map.
Qed.

Lemma step_unique_ids (w : World) (c : Call) :
  unique_ids w -> unique_ids (step w c).
Proof.
  unfold unique_ids. intros Hnd.
  destruct c as [todo| |todo_id|todo_id todo|todo_id|response].
  - rewrite step_post.
    destruct (existsb (has_key (id_seq w (inserts w))) (table w)) eqn:H.
    + now rewrite (create_todo_taken _ _ H).
    + rewrite (create_todo_fresh _ _ H). cbn [snd table].
      rewrite map_app. cbn [map Todo.id].
      apply existsb_has_key_false in H.
      apply NoDup_app; [exact Hnd | repeat constructor; intros [] | ].
      intros i Hin [<- | []]. contradiction.
  - now rewrite step_get_todos.
  - now rewrite step_get_todo.
  - rewrite step_put.
    destruct (find (has_id todo_id) (table w)) as [r|] eqn:H.
    + destruct (update_todo_found w todo_id todo r H)
        as (items & k & _ & _ & _ & _ & Hrun).
      rewrite Hrun. cbn [snd table with_ticks with_table].
      now rewrite map_id_where_id.
    + now rewrite (update_todo_missing _ _ _ H).
  - rewrite step_delete.
    destruct (find (has_id todo_id) (table w)) as [r|] eqn:H.
    + rewrite (delete_todo_found _ _ _ H). cbn [snd table with_table].
      now apply delete_keeps_unique.
    + now rewrite (delete_todo_missing _ _ H).
  - now rewrite step_refused.
Qed.

(** X3.  Whatever operations are handled, in a table where no two rows
    have the same id no two rows ever will: a create is refused when the key
    is taken, an update keeps every row's id, a delete only removes rows. *)
Theorem ids_stay_unique (cs : list Call) (w : World) :
  unique_ids w -> unique_ids (run cs w).
Proof.
  revert w. induction cs as [|c cs IH]; intros w Hnd; simpl.
  - exact Hnd.
  - apply IH. now apply step_unique_ids.
Qed.

Lemma ids_stay_unique_witness :
  unique_ids
    (run [post_todos todo_B; put_todo 1 null_title; delete_todo_call 2]
       world_A).
Proof.
  apply (ids_stay_unique
           [post_todos todo_B; put_todo 1 null_title; delete_todo_call 2]
           world_A).
  unfold unique_ids. simpl. repeat constructor. intros [].
Defined.

(** ** Create *)

(** X4.  When [create_todo] returns a view, the id in the view was the id of
    no row before, the table has one row more, and every row that a lookup
    by id found before is still what the lookup finds. *)
Theorem create_keeps_existing_rows (w w' : World) (todo : TodoCreate.t)
    (v : TodoResponse.t) :
  create_todo_route todo w = (inr v, w') ->
  ~ In (TodoResponse.id v) (map Todo.id (table w)) /\
  List.length (table w') = S (List.length (table w)) /\
  (forall i r, find (has_id i) (table w) = Some r ->
               find (has_id i) (table w') = Some r) /\
  (forall i, i <> TodoResponse.id v ->
             find (has_id i) (table w') = find (has_id i) (table w)).
Proof.
  unfold create_todo_route. intros Hcreate.
  destruct (existsb (has_key (id_seq w (inserts w))) (table w)) eqn:Hpk.
  - rewrite (create_todo_taken _ _ Hpk) in Hcreate. discriminate.
  - rewrite (create_todo_fresh _ _ Hpk) in Hcreate.
    destruct (storable (id_seq w (inserts w))) eqn:Hbind; [|discriminate].
    injection Hcreate as <- <-. cbn [view_of TodoResponse.id Todo.id table].
    repeat split.
    + now apply existsb_has_key_false.
    + rewrite length_app. simpl. lia.
    + intros i r Hr. now apply find_app_old.
    + intros i Hne.
      destruct (find (has_id i) (table w)) as [r|] eqn:Hr.
      * now apply find_app_old.
      * rewrite (find_app_new _ _ _ Hr).
        assert (Hno : has_id i (Todo.mk (id_seq w (inserts w))
                  (Some (TodoCreate.title todo)) (TodoCreate.description todo)
                  (clock w (ticks w)) (clock w (S (ticks w)))) = false).
        { apply has_id_neq. simpl. congruence. }
        now rewrite Hno.
Qed.

Lemma create_keeps_existing_rows_witness :
  ~ In 2 (map Todo.id (table world_A)) /\
  List.length (table world_AB) = S (List.length (table world_A)) /\
  (forall i r, find (has_id i) (table world_A) = Some r ->
               find (has_id i) (table world_AB) = Some r) /\
  (forall i, i <> 2 ->
             find (has_id i) (table world_AB) = find (has_id i) (table world_A)).
Proof.
  apply (create_keeps_existing_rows world_A world_AB todo_B
           (TodoResponse.mk 2 "B" (Some "b"%string) 2 3)).
  reflexivity.
Defined.

(** When the key the store proposes is the id of a row in the table,
    [create_todo] raises [IntegrityError]; the table and the log are as
    before, two readings of the clock are used up. *)
Theorem create_on_taken_key (w : World) (todo : TodoCreate.t) :
  In (id_seq w (inserts w)) (map Todo.id (table w)) ->
  fst (create_todo_route todo w) = inl IntegrityError /\
  table (snd (create_todo_route todo w)) = table w /\
  log (snd (create_todo_route todo w)) = log w /\
  ticks (snd (create_todo_route todo w)) = S (S (ticks w)).
Proof.
  intros Htaken. apply existsb_has_key in Htaken.
  unfold create_todo_route. rewrite (create_todo_taken _ _ Htaken).
  now repeat split.
Qed.

Lemma create_on_taken_key_witness :
  fst (create_todo_route todo_B world_stuck) = inl IntegrityError /\
  table (snd (create_todo_route todo_B world_stuck)) = table world_stuck /\
  log (snd (create_todo_route todo_B world_stuck)) = log world_stuck /\
  ticks (snd (create_todo_route todo_B world_stuck)) = S (S (ticks world_stuck)).
Proof.
  apply (create_on_taken_key world_stuck todo_B).
  left. reflexivity.
Defined.

(** ** Creating and listing *)





(** X6.  When [create_todo] returns a view and the list handler then
    returns, the view is in the list. *)
Theorem created_todo_is_listed (w w' w'' : World) (todo : TodoCreate.t)
    (v : TodoResponse.t) (vs : list TodoResponse.t) :
  create_todo_route todo w = (inr v, w') ->
  get_all_todos_route w' = (inr vs, w'') ->
  In v vs.
Proof.
  unfold create_todo_route. intros Hcreate Hlist.
  destruct (existsb (has_key (id_seq w (inserts w))) (table w)) eqn:Hpk.
  - rewrite (create_todo_taken _ _ Hpk) in Hcreate. discriminate.
  - rewrite (create_todo_fresh _ _ Hpk) in Hcreate.
    destruct (storable (id_seq w (inserts w))) eqn:Hbind; [|discriminate].
    injection Hcreate as <- <-.
    unfold get_all_todos_route, get_all_todos, bind, query_all in Hlist.
    apply from_orm_each_inv in Hlist as [Hviews _]. cbn [table] in Hviews.
    rewrite map_app in Hviews. cbn [map to_view Todo.title] in Hviews.
    assert (Hin : In (Some (view_of (TodoCreate.title todo)
                   (Todo.mk (id_seq w (inserts w))
                      (Some (TodoCreate.title todo))
                      (TodoCreate.description todo)
                      (clock w (ticks w)) (clock w (S (ticks w))))))
                   (map Some vs)).
    { rewrite <- Hviews. apply in_or_app. right. now left. }
    apply in_map_iff in Hin as (x & [= ->] & Hin). exact Hin.
Qed.

Lemma created_todo_is_listed_witness :
  In (TodoResponse.mk 2 "B" (Some "b"%string) 2 3)
     [TodoResponse.mk 1 "A" None 0 1;
      TodoResponse.mk 2 "B" (Some "b"%string) 2 3].
Proof.
  apply (created_todo_is_listed world_A world_AB world_AB todo_B
           (TodoResponse.mk 2 "B" (Some "b"%string) 2 3)
           [TodoResponse.mk 1 "A" None 0 1;
            TodoResponse.mk 2 "B" (Some "b"%string) 2 3]);
    reflexivity.
Defined.

(** X7.  When [delete_todo] returns [True] and the list handler then
    returns, no view in the list has the deleted id. *)
Theorem deleted_todo_is_not_listed (w w' w'' : World) (todo_id : Z)
    (vs : list TodoResponse.t) :
  delete_todo todo_id w = (inr true, w') ->
  get_all_todos_route w' = (inr vs, w'') ->
  ~ In todo_id (map TodoResponse.id vs).
Proof.
  intros Hdel Hlist.
  destruct (find (has_id todo_id) (table w)) as [r0|] eqn:Hfind.
  - rewrite (delete_todo_found _ _ _ Hfind) in Hdel. injection Hdel as <-.
    unfold get_all_todos_route, get_all_todos, bind, query_all in Hlist.
    apply from_orm_each_inv in Hlist as [Hviews _].
    destruct (to_view_columns _ _ Hviews) as (-> & _).
    cbn [table with_table].
    apply (find_none_not_in _ _ (find_storable _ _ _ Hfind)).
    apply find_filter_eq.
  - rewrite (delete_todo_missing _ _ Hfind) in Hdel.
    destruct (storable todo_id); discriminate.
Qed.

Lemma deleted_todo_is_not_listed_witness :
  ~ In 1 (map TodoResponse.id [TodoResponse.mk 2 "B" (Some "b"%string) 2 3]).
Proof.
  apply (deleted_todo_is_not_listed world_AB
           (step world_AB (delete_todo_call 1))
           (step world_AB (delete_todo_call 1)) 1
           [TodoResponse.mk 2 "B" (Some "b"%string) 2 3]);
    reflexivity.
Defined.

(** ** Update *)

(** X8.  When the update handler returns a view, the get handler on the
    same id in the world it left returns that view. *)
Theorem get_after_update (w w' : World) (todo_id : Z) (todo : TodoUpdate.t)
    (v : TodoResponse.t) :
  update_todo_route todo_id todo w = (inr v, w') ->
  get_todo_route todo_id w' = (inr v, w').
Proof.
  rewrite update_todo_route_unfold. intros Hupd.
  destruct (find (has_id todo_id) (table w)) as [r|] eqn:Hfind.
  - destruct (update_todo_found w todo_id todo r Hfind)
      as (items & k & _ & Hg & _ & _ & Hrun).
    rewrite Hrun in Hupd. cbn [Todo.title] in Hupd.
    destruct (assigned (TodoUpdate.title todo) (Todo.title r)) as [s|] eqn:Hs;
      [|discriminate].
    injection Hupd as <- <-.
    rewrite get_todo_route_unfold.
    rewrite (get_todo_by_id_found _ todo_id (fold_left setattr items r)).
    + rewrite Hg. cbn [Todo.title]. rewrite ?Hs. reflexivity.
    + cbn [table with_ticks with_table].
      apply (find_map_upd_eq todo_id _ (fold_setattr_id items)). exact Hfind.
  - rewrite (update_todo_missing _ _ _ Hfind) in Hupd.
    destruct (storable todo_id); discriminate.
Qed.

Lemma get_after_update_witness :
  get_todo_route 1 (step world_A (put_todo 1 (only_description "d")))
  = (inr (TodoResponse.mk 1 "A" (Some "d"%string) 0 2),
     step world_A (put_todo 1 (only_description "d"))).
Proof.
  apply (get_after_update world_A
           (step world_A (put_todo 1 (only_description "d"))) 1
           (only_description "d")
           (TodoResponse.mk 1 "A" (Some "d"%string) 0 2)).
  reflexivity.
Defined.

(** X9.  The view the update handler returns for a row: the id asked for,
    the row's [created_at], for title and description the payload's value
    when the payload sets the field and the row's value when not, and as
    [updated_at] a reading of the clock taken during the call. *)
Theorem update_returns_merged_view (w w' : World) (todo_id : Z)
    (todo : TodoUpdate.t) (r : Todo.t) (v : TodoResponse.t) :
  find (has_id todo_id) (table w) = Some r ->
  update_todo_route todo_id todo w = (inr v, w') ->
  TodoResponse.id v = todo_id /\
  TodoResponse.created_at v = Todo.created_at r /\
  Some (TodoResponse.title v)
    = assigned (TodoUpdate.title todo) (Todo.title r) /\
  TodoResponse.description v
    = assigned (TodoUpdate.description todo) (Todo.description r) /\
  (TodoResponse.updated_at v = clock w (ticks w) \/
   TodoResponse.updated_at v = clock w (S (ticks w))) /\
  (ticks w < ticks w')%nat.
Proof.
  intros Hfind. rewrite update_todo_route_unfold. intros Hupd.
  destruct (update_todo_found w todo_id todo r Hfind)
    as (items & k & Hk & _ & _ & _ & Hrun).
  rewrite Hrun in Hupd. cbn [Todo.title] in Hupd.
  destruct (assigned (TodoUpdate.title todo) (Todo.title r)) as [s|] eqn:Hs;
    [|discriminate].
  injection Hupd as <- <-. unfold view_of. simpl. repeat split.
  - assert (Hcases : k = ticks w \/ k = S (ticks w)) by lia.
    destruct Hcases as [-> | ->]; [now left | now right].
  - lia.
Qed.

Lemma update_returns_merged_view_witness :
  1 = 1 /\
  0 = 0 /\
  Some "A"%string = assigned Unset (Some "A"%string) /\
  Some "d"%string = assigned (Provided (Some "d"%string)) None /\
  (2 = ticking 2 \/ 2 = ticking 3) /\
  (ticks world_A
   < ticks (step world_A (put_todo 1 (only_description "d"))))%nat.
Proof.
  apply (update_returns_merged_view world_A
           (step world_A (put_todo 1 (only_description "d"))) 1
           (only_description "d")
           (Todo.mk 1 (Some "A"%string) None 0 1)
           (TodoResponse.mk 1 "A" (Some "d"%string) 0 2));
    reflexivity.
Defined.

Lemma map_created_at_where_id (pk : Z) (items : list Item)
    (rows : list Todo.t) :
  map Todo.created_at (map (where_id pk (fold_left setattr items)) rows)
  = map Todo.created_at rows.
Proof.
  rewrite map_map. apply map_ext. intros row. unfold where_id.
  destruct (has_id pk row); [apply fold_setattr_created_at | reflexivity].
Qed.

(** X10.  An update adds no row and removes none: after it the table has
    the same ids and the same [created_at] values, row for row, whether the
    id was found or not and whatever the payload. *)
Theorem update_keeps_ids (w : World) (todo_id : Z) (todo : TodoUpdate.t) :
  map Todo.id (table (step w (put_todo todo_id todo)))
    = map Todo.id (table w) /\
  map Todo.created_at (table (step w (put_todo todo_id todo)))
    = map Todo.created_at (table w).
Proof.
  rewrite step_put.
  destruct (find (has_id todo_id) (table w)) as [r|] eqn:Hfind.
  - destruct (update_todo_found w todo_id todo r Hfind)
      as (items & k & _ & _ & _ & _ & Hrun).
    rewrite Hrun. cbn [snd table with_ticks with_table]. split.
    + apply map_id_where_id.
    + apply map_created_at_where_id.
  - rewrite (update_todo_missing _ _ _ Hfind). now split.
Qed.

Lemma assigned_twice {A} (f : Field A) (x : A) :
  assigned f (assigned f x) = assigned f x.
Proof. now destruct f. Qed.

(** X11.  Sending the same update twice leaves the title and description
    that sending it once leaves. *)
Theorem update_twice_same_content (w : World) (todo_id : Z)
    (todo : TodoUpdate.t) (r : Todo.t) :
  find (has_id todo_id) (table w) = Some r ->
  exists r1 r2,
    find (has_id todo_id) (table (step w (put_todo todo_id todo))) = Some r1 /\
    find (has_id todo_id)
      (table (step (step w (put_todo todo_id todo)) (put_todo todo_id todo)))
      = Some r2 /\
    Todo.title r2 = Todo.title r1 /\
    Todo.description r2 = Todo.description r1 /\
    Todo.created_at r2 = Todo.created_at r1.
Proof.
  intros Hfind.
  destruct (put_row w todo_id todo r Hfind) as (r1 & Hr1 & Ht1 & Hd1 & _).
  destruct (put_row _ todo_id todo r1 Hr1) as (r2 & Hr2 & Ht2 & Hd2 & Hc2).
  exists r1, r2. repeat split; try assumption.
  - now rewrite Ht2, Ht1, assigned_twice.
  - now rewrite Hd2, Hd1, assigned_twice.
Qed.

Lemma update_twice_same_content_witness :
  exists r1 r2,
    find (has_id 1) (table (step world_A (put_todo 1 (only_description "d"))))
      = Some r1 /\
    find (has_id 1)
      (table (step (step world_A (put_todo 1 (only_description "d")))
                (put_todo 1 (only_description "d"))))
      = Some r2 /\
    Todo.title r2 = Todo.title r1 /\
    Todo.description r2 = Todo.description r1 /\
    Todo.created_at r2 = Todo.created_at r1.
Proof.
  apply (update_twice_same_content world_A 1 (only_description "d")
           (Todo.mk 1 (Some "A"%string) None 0 1)).
  reflexivity.
Defined.

Lemma step_dated (w : World) (c : Call) :
  monotone (clock w) -> dated w -> dated (step w c).
Proof.
  intros Hmono Hinv.
  destruct c as [todo| |todo_id|todo_id todo|todo_id|response].
  - rewrite step_post.
    destruct (existsb (has_key (id_seq w (inserts w))) (table w)) eqn:H.
    + rewrite (create_todo_taken _ _ H). intros r Hin k Hk. simpl in *.
      apply (Hinv r Hin). lia.
    + rewrite (create_todo_fresh _ _ H). intros r Hin k Hk. simpl in *.
      apply in_app_or in Hin as [Hin | [<- | []]].
      * apply (Hinv r Hin). lia.
      * simpl. apply Hmono. lia.
  - now rewrite step_get_todos.
  - now rewrite step_get_todo.
  - rewrite step_put.
    destruct (find (has_id todo_id) (table w)) as [r0|] eqn:H.
    + destruct (update_todo_found w todo_id todo r0 H)
        as (items & k0 & Hk0 & _ & Hall & _ & Hrun).
      rewrite Hrun. intros r Hin k Hk. simpl in *.
      apply in_map_iff in Hin as (x & <- & Hx).
      unfold where_id. destruct (has_id todo_id x).
      * destruct (Hall x) as [-> | ->].
        -- apply (Hinv x Hx). lia.
        -- apply Hmono. lia.
      * apply (Hinv x Hx). lia.
    + now rewrite (update_todo_missing _ _ _ H).
  - rewrite step_delete.
    destruct (find (has_id todo_id) (table w)) as [r0|] eqn:H.
    + rewrite (delete_todo_found _ _ _ H). intros r Hin k Hk. simpl in *.
      apply filter_In in Hin as [Hin _]. now apply (Hinv r Hin).
    + now rewrite (delete_todo_missing _ _ H).
  - now rewrite step_refused.
Qed.

Lemma run_dated (cs : list Call) (w : World) :
  monotone (clock w) -> dated w -> dated (run cs w).
Proof.
  intros Hmono Hinv. induction cs as [|c cs IH] using rev_ind.
  - exact Hinv.
  - rewrite run_app. apply step_dated; [|exact IH].
    destruct (run_same_env cs w) as (-> & _). exact Hmono.
Qed.

Lemma step_updated_at (w : World) (c : Call) (todo_id : Z) (r r' : Todo.t) :
  dated w ->
  find (has_id todo_id) (table w) = Some r ->
  find (has_id todo_id) (table (step w c)) = Some r' ->
  Todo.updated_at r <= Todo.updated_at r'.
Proof.
  intros Hinv Hr.
  destruct c as [todo| |i|i todo|i|response].
  - rewrite step_post.
    destruct (existsb (has_key (id_seq w (inserts w))) (table w)) eqn:H.
    + rewrite (create_todo_taken _ _ H). simpl. intros Hr'.
      assert (r' = r) by congruence. subst. lia.
    + rewrite (create_todo_fresh _ _ H). simpl.
      rewrite (find_app_old _ _ _ _ Hr). intros [= <-]. lia.
  - rewrite step_get_todos. intros Hr'.
    assert (r' = r) by congruence. subst. lia.
  - rewrite step_get_todo. intros Hr'.
    assert (r' = r) by congruence. subst. lia.
  - rewrite step_put.
    destruct (find (has_id i) (table w)) as [r0|] eqn:H.
    + destruct (update_todo_found w i todo r0 H)
        as (items & k0 & Hk0 & _ & Hall & _ & Hrun).
      rewrite Hrun. simpl.
      rewrite (find_map_upd i (fold_left setattr items)
                 (fold_setattr_id items)), Hr. simpl.
      intros [= <-]. unfold where_id. destruct (has_id i r); [|lia].
      destruct (Hall r) as [-> | ->]; [lia|].
      apply (Hinv r); [|lia]. now apply (find_has_id _ _ _ Hr).
    + rewrite (update_todo_missing _ _ _ H). simpl. intros Hr'.
      assert (r' = r) by congruence. subst. lia.
  - rewrite step_delete.
    destruct (find (has_id i) (table w)) as [r0|] eqn:H.
    + rewrite (delete_todo_found _ _ _ H). simpl.
      destruct (Z.eq_dec todo_id i) as [->|Hne].
      * now rewrite find_filter_eq.
      * rewrite (find_filter_ne _ _ _ Hne). intros Hr'.
        assert (r' = r) by congruence. subst. lia.
    + rewrite (delete_todo_missing _ _ H). simpl. intros Hr'.
      assert (r' = r) by congruence. subst. lia.
  - rewrite step_refused. intros Hr'.
    assert (r' = r) by congruence. subst. lia.
Qed.

(** X12.  On a clock that never runs backwards, after any operations from
    start-up, no operation moves the [updated_at] of a row it keeps back in
    time. *)
Theorem updated_at_never_decreases (clk : nat -> datetime) (ids : nat -> Z)
    (cs : list Call) (c : Call) (todo_id : Z) (r r' : Todo.t) :
  monotone clk ->
  find (has_id todo_id) (table (run cs (start clk ids))) = Some r ->
  find (has_id todo_id) (table (step (run cs (start clk ids)) c)) = Some r' ->
  Todo.updated_at r <= Todo.updated_at r'.
Proof.
  intros Hmono. apply step_updated_at.
  apply run_dated; [exact Hmono|]. intros x [].
Qed.

Lemma updated_at_never_decreases_witness : 1 <= 2.
Proof.
  apply (updated_at_never_decreases ticking serial [post_todos todo_A]
           (put_todo 1 (only_description "d")) 1
           (Todo.mk 1 (Some "A"%string) None 0 1)
           (Todo.mk 1 (Some "A"%string) (Some "d"%string) 0 2)).
  - intros j k Hjk. unfold ticking. lia.
  - reflexivity.
  - reflexivity.
Defined.

(** ** Delete *)

Lemma filter_keeps_all {A} (p : A -> bool) (l : list A) :
  (forall x, In x l -> p x = true) -> filter p l = l.
Proof.
  induction l as [|x l IH]; simpl; [trivial|]. intros Hall.
  rewrite (Hall x (or_introl eq_refl)). f_equal. apply IH.
  intros y Hy. apply Hall. now right.
Qed.

Lemma filter_out_one (i : Z) (rows : list Todo.t) :
  storable i = true ->
  NoDup (map Todo.id rows) -> In i (map Todo.id rows) ->
  S (List.length (filter (fun row => negb (has_id i row)) rows))
  = List.length rows.
Proof.
  intros Hbind.
  induction rows as [|row rows IH]; simpl; [intros _ []|].
  intros Hnd Hin. inversion Hnd as [|? ? Hnotin Hrest]; subst.
  destruct (has_id i row) eqn:Hrow; simpl.
  - apply has_id_id in Hrow. f_equal. f_equal.
    apply filter_keeps_all. intros x Hx. apply negb_true_iff.
    apply has_id_neq. intros Hxi. apply Hnotin. rewrite Hrow, <- Hxi.
    now apply in_map.
  - f_equal. apply IH; [exact Hrest|].
    destruct Hin as [Heq | Hin]; [|exact Hin].
    now apply (has_id_false _ _ Hbind) in Hrow.
Qed.

(** X13.  Deleting an id that is in a table with unique ids: the handler
    returns the confirmation message, exactly one row is gone, what a lookup
    finds under any other id is unchanged, and neither the clock is read
    nor anything logged. *)
Theorem delete_removes_one_row (w : World) (todo_id : Z) (r : Todo.t) :
  unique_ids w ->
  find (has_id todo_id) (table w) = Some r ->
  fst (delete_todo_route todo_id w) = inr "Todo deleted successfully"%string /\
  snd (delete_todo_route todo_id w) = step w (delete_todo_call todo_id) /\
  S (List.length (table (step w (delete_todo_call todo_id))))
    = List.length (table w) /\
  (forall j, j <> todo_id ->
     find (has_id j) (table (step w (delete_todo_call todo_id)))
     = find (has_id j) (table w)) /\
  ticks (step w (delete_todo_call todo_id)) = ticks w /\
  log (step w (delete_todo_call todo_id)) = log w.
Proof.
  intros Hnd Hfind. rewrite step_delete, delete_todo_route_unfold.
  rewrite (delete_todo_found _ _ _ Hfind). cbn [fst snd table with_table].
  repeat split.
  - apply filter_out_one;
      [exact (find_storable _ _ _ Hfind) | exact Hnd |].
    destruct (find_has_id _ _ _ Hfind) as [<- Hin]. now apply in_map.
  - intros j Hne. now apply find_filter_ne.
Qed.

Lemma delete_removes_one_row_witness :
  fst (delete_todo_route 1 world_AB) = inr "Todo deleted successfully"%string /\
  snd (delete_todo_route 1 world_AB) = step world_AB (delete_todo_call 1) /\
  S (List.length (table (step world_AB (delete_todo_call 1))))
    = List.length (table world_AB) /\
  (forall j, j <> 1 ->
     find (has_id j) (table (step world_AB (delete_todo_call 1)))
     = find (has_id j) (table world_AB)) /\
  ticks (step world_AB (delete_todo_call 1)) = ticks world_AB /\
  log (step world_AB (delete_todo_call 1)) = log world_AB.
Proof.
  apply (delete_removes_one_row world_AB 1
           (Todo.mk 1 (Some "A"%string) None 0 1)).
  - unfold unique_ids.
    change (map Todo.id (table world_AB)) with [1; 2].
    apply NoDup_cons; [intros [H | []]; discriminate H|].
    apply NoDup_cons; [intros [] | apply NoDup_nil].
  - reflexivity.
Defined.

(** X14.  After [delete_todo] has returned [True], deleting the same id
    again and updating it both raise the 404 and change nothing. *)
Theorem delete_twice_is_not_found (w w' : World) (todo_id : Z)
    (todo : TodoUpdate.t) :
  delete_todo todo_id w = (inr true, w') ->
  delete_todo_route todo_id w'
    = (inl (HTTPException 404 "Todo not found"), w') /\
  update_todo_route todo_id todo w'
    = (inl (HTTPException 404 "Todo not found"), w').
Proof.
  intros Hdel.
  destruct (find (has_id todo_id) (table w)) as [r0|] eqn:Hfind.
  - rewrite (delete_todo_found _ _ _ Hfind) in Hdel. injection Hdel as <-.
    assert (Hnone : find (has_id todo_id)
              (table (with_table
                 (filter (fun r => negb (has_id todo_id r)) (table w)) w))
              = None) by apply find_filter_eq.
    pose proof (find_storable _ _ _ Hfind) as Hbind.
    split.
    + rewrite delete_todo_route_unfold.
      now rewrite (delete_todo_missing _ _ Hnone), Hbind.
    + rewrite update_todo_route_unfold.
      now rewrite (update_todo_missing _ _ _ Hnone), Hbind.
  - rewrite (delete_todo_missing _ _ Hfind) in Hdel.
    destruct (storable todo_id); discriminate.
Qed.

Lemma delete_twice_is_not_found_witness :
  delete_todo_route 1 (step world_A (delete_todo_call 1))
    = (inl (HTTPException 404 "Todo not found"),
       step world_A (delete_todo_call 1)) /\
  update_todo_route 1 empty_update (step world_A (delete_todo_call 1))
    = (inl (HTTPException 404 "Todo not found"),
       step world_A (delete_todo_call 1)).
Proof.
  apply (delete_twice_is_not_found world_A
           (step world_A (delete_todo_call 1)) 1 empty_update).
  reflexivity.
Defined.

(** X15.  Deleting the Todo that [create_todo] has just returned succeeds
    and leaves the table with exactly the rows it had before the create. *)
Theorem create_then_delete_restores (w w' : World) (todo : TodoCreate.t)
    (v : TodoResponse.t) :
  create_todo_route todo w = (inr v, w') ->
  fst (delete_todo (TodoResponse.id v) w') = inr true /\
  table (snd (delete_todo (TodoResponse.id v) w')) = table w.
Proof.
  unfold create_todo_route. intros Hcreate.
  destruct (existsb (has_key (id_seq w (inserts w))) (table w)) eqn:Hpk.
  - rewrite (create_todo_taken _ _ Hpk) in Hcreate. discriminate.
  - rewrite (create_todo_fresh _ _ Hpk) in Hcreate.
    destruct (storable (id_seq w (inserts w))) eqn:Hbind; [|discriminate].
    injection Hcreate as <- <-. cbn [view_of TodoResponse.id Todo.id].
    set (pk := id_seq w (inserts w)) in *.
    set (row := Todo.mk pk _ _ _ _).
    set (w1 := mkWorld _ _ _ _ _ _).
    assert (Hrow : has_id pk row = true) by now apply has_id_true.
    assert (Hfind : find (has_id pk) (table w1) = Some row).
    { unfold w1. cbn [table].
      rewrite (find_app_new _ _ _ (find_existsb _ _ Hpk)). now rewrite Hrow. }
    rewrite (delete_todo_found _ _ _ Hfind). cbn [fst snd table with_table].
    split; [reflexivity|]. unfold w1. cbn [table].
    rewrite filter_app. cbn [filter]. rewrite Hrow. cbn [negb].
    rewrite app_nil_r. apply filter_keeps_all.
    intros x Hx. apply negb_true_iff. apply has_id_neq.
    apply existsb_has_key_false in Hpk. intros Hxi. apply Hpk.
    rewrite <- Hxi. now apply in_map.
Qed.

Lemma create_then_delete_restores_witness :
  fst (delete_todo 2 world_AB) = inr true /\
  table (snd (delete_todo 2 world_AB)) = table world_A.
Proof.
  apply (create_then_delete_restores world_A world_AB todo_B
           (TodoResponse.mk 2 "B" (Some "b"%string) 2 3)).
  reflexivity.
Defined.

(** ** Responses and exceptions of the routed handlers *)

Lemma from_orm_each_raises (rows : list Todo.t) (w w' : World)
    (e : Exception) :
  from_orm_each rows w = (inl e, w') -> e = ValidationError /\ w' = w.
Proof.
  induction rows as [|row rows IH]; simpl.
  - discriminate.
  - unfold bind. rewrite from_orm_to_view.
    destruct (to_view row) as [v|].
    + destruct (from_orm_each rows w) as [[e0|vs0] w0].
      * intros [= <- <-]. now apply IH.
      * discriminate.
    + intros [= <- <-]. now split.
Qed.

(** The only [HTTPException] a routed handler raises is the 404, and it
    raises it before it changes anything. *)
Lemma router_raises (c : Call) (w w' : World) (status : Z) (detail : string) :
  router c w = (inl (HTTPException status detail), w') ->
  status = 404 /\ detail = "Todo not found"%string /\ w' = w.
Proof.
  destruct c as [todo| |i|i todo|i|response]; unfold router, bind.
  - unfold create_todo_route.
    destruct (existsb (has_key (id_seq w (inserts w))) (table w)) eqn:H.
    + rewrite (create_todo_taken _ _ H). discriminate.
    + rewrite (create_todo_fresh _ _ H).
      destruct (storable (id_seq w (inserts w))); discriminate.
  - unfold get_all_todos_route, get_all_todos, bind, query_all.
    destruct (from_orm_each (table w) w) as [[e0|vs] w0] eqn:Hall;
      [|discriminate].
    destruct (from_orm_each_raises _ _ _ _ Hall) as [-> _]. discriminate.
  - rewrite get_todo_route_unfold.
    destruct (find (has_id i) (table w)) as [r|] eqn:H.
    + rewrite (get_todo_by_id_found _ _ _ H).
      destruct (Todo.title r); discriminate.
    + rewrite (get_todo_by_id_missing _ _ H).
      destruct (storable i); [|discriminate].
      intros [= <- <- <-]. now repeat split.
  - rewrite update_todo_route_unfold.
    destruct (find (has_id i) (table w)) as [r|] eqn:H.
    + destruct (update_todo_found w i todo r H)
        as (items & k & _ & _ & _ & _ & Hrun).
      rewrite Hrun. cbn [Todo.title].
      destruct (assigned (TodoUpdate.title todo) (Todo.title r));
        discriminate.
    + rewrite (update_todo_missing _ _ _ H).
      destruct (storable i); [|discriminate].
      intros [= <- <- <-]. now repeat split.
  - rewrite delete_todo_route_unfold.
    destruct (find (has_id i) (table w)) as [r|] eqn:H.
    + rewrite (delete_todo_found _ _ _ H). discriminate.
    + rewrite (delete_todo_missing _ _ H).
      destruct (storable i); [|discriminate].
      intros [= <- <- <-]. now repeat split.
  - discriminate.
Qed.

(** What a routed handler returns is a 200 response. *)
Lemma router_returns (c : Call) (w w' : World) (response : Response) :
  (forall r, c <> refused r) ->
  router c w = (inr response, w') ->
  status_code response = 200.
Proof.
  intros Hrouted.
  destruct c as [todo| |i|i todo|i|r]; unfold router, bind.
  - destruct (create_todo_route todo w) as [[e|v] w0];
      [discriminate | now intros [= <- <-]].
  - destruct (get_all_todos_route w) as [[e|v] w0];
      [discriminate | now intros [= <- <-]].
  - destruct (get_todo_route i w) as [[e|v] w0];
      [discriminate | now intros [= <- <-]].
  - destruct (update_todo_route i todo w) as [[e|v] w0];
      [discriminate | now intros [= <- <-]].
  - destruct (delete_todo_route i w) as [[e|v] w0];
      [discriminate | now intros [= <- <-]].
  - now destruct (Hrouted r).
Qed.

(** X16.  A request routed to one of the five handlers that ends in a
    response ends either in a 200 response or in the 404 response with
    detail [Todo not found]; in the second case the world is unchanged. *)
Theorem responses_are_200_or_404 (request : Request) (w w' : World)
    (response : Response) :
  (forall r, call request <> refused r) ->
  call_next request w = (inr response, w') ->
  status_code response = 200 \/
  (response = mkResponse 404 (json_detail "Todo not found") /\ w' = w).
Proof.
  intros Hrouted. unfold call_next.
  destruct (router (call request) w) as [[e|resp] w0] eqn:Hr.
  - destruct e as [status detail| | | |]; try discriminate.
    destruct (router_raises _ _ _ _ _ Hr) as (-> & -> & ->).
    intros [= <- <-]. now right.
  - intros [= <- <-]. left. exact (router_returns _ _ _ _ Hrouted Hr).
Qed.

Lemma responses_are_200_or_404_witness :
  status_code (mkResponse 404 (json_detail "Todo not found")) = 200 \/
  (mkResponse 404 (json_detail "Todo not found")
     = mkResponse 404 (json_detail "Todo not found") /\
   world_A = world_A).
Proof.
  apply (responses_are_200_or_404
           (mkRequest "DELETE" "/todos/7" (delete_todo_call 7))
           world_A world_A
           (mkResponse 404 (json_detail "Todo not found"))).
  - intros r. discriminate.
  - reflexivity.
Defined.

(** ** The middleware around the handlers *)

(** The middleware returns the response, or lets out the exception,
    that [call_next] gave once the start time was read, and the table after
    the middleware is the table [call_next] left. *)
Theorem middleware_is_transparent (request : Request) (w : World) :
  fst (app request w)
    = fst (call_next request (with_ticks (S (ticks w)) w)) /\
  table (snd (app request w))
    = table (snd (call_next request (with_ticks (S (ticks w)) w))).
Proof.
  unfold app, logging_middleware, bind, time_time, utcnow, logger_info, ret.
  destruct (call_next request (with_ticks (S (ticks w)) w))
    as [[e|response] w1]; now split.
Qed.

Lemma app_log (request : Request) (w : World) :
  log (snd (app request w)) = log w \/
  exists d,
    log (snd (app request w))
    = log w ++ [mkLogRecord (method request) (url_path request) d].
Proof.
  pose proof (step_same_env (with_ticks (S (ticks w)) w) (call request))
    as (_ & _ & Hlog & _ & _).
  unfold step in Hlog.
  unfold app, logging_middleware, bind, time_time, utcnow, logger_info, ret,
    call_next.
  destruct (router (call request) (with_ticks (S (ticks w)) w))
    as [[e|response] w1]; cbn [snd log with_ticks with_log] in *.
  - destruct e; cbn [snd log with_ticks with_log];
      try (left; exact Hlog).
    right. eexists. rewrite Hlog. reflexivity.
  - right. eexists. rewrite Hlog. reflexivity.
Qed.

(** X18.  The log only grows: after the application has served a list of
    requests, the log is the former log followed by at most one record per
    request, and every new record carries the method and path of one of the
    requests. *)
Theorem log_is_append_only (requests : list Request) (w : World) :
  exists records,
    log (serve requests w) = log w ++ records /\
    (List.length records <= List.length requests)%nat /\
    Forall (fun record =>
              exists request, In request requests /\
                log_method record = method request /\
                log_path record = url_path request) records.
Proof.
  revert w. induction requests as [|request requests IH]; intros w.
  - exists []. simpl. rewrite app_nil_r. repeat split; [lia | constructor].
  - cbn [serve fold_left]. fold (serve requests (snd (app request w))).
    destruct (IH (snd (app request w))) as (records & Hlog & Hlen & Hall).
    assert (Hweaken :
      Forall (fun record =>
                exists r, In r (request :: requests) /\
                  log_method record = method r /\
                  log_path record = url_path r) records).
    { eapply Forall_impl; [|exact Hall].
      intros record (r & Hin & Hm & Hp). exists r. repeat split; trivial.
      now right. }
    destruct (app_log request w) as [Hsame | [d Hone]].
    + exists records. rewrite Hlog, Hsame. repeat split; trivial.
      simpl. lia.
    + exists (mkLogRecord (method request) (url_path request) d :: records).
      rewrite Hlog, Hone, <- app_assoc. repeat split.
      * simpl. lia.
      * constructor; [|exact Hweaken].
        exists request. repeat split. now left.
Qed.

(** ** Reading one and reading all *)

(** X19.  A view that the get handler returns is one of the views that the
    list handler returns in the same world, when it returns. *)
Theorem got_todo_is_listed (w w' w'' : World) (todo_id : Z)
    (v : TodoResponse.t) (vs : list TodoResponse.t) :
  get_todo_route todo_id w = (inr v, w') ->
  get_all_todos_route w = (inr vs, w'') ->
  In v vs.
Proof.
  rewrite get_todo_route_unfold. intros Hget Hlist.
  destruct (find (has_id todo_id) (table w)) as [r|] eqn:Hfind.
  - rewrite (get_todo_by_id_found _ _ _ Hfind) in Hget.
    destruct (Todo.title r) as [s|] eqn:Hs; [|discriminate].
    injection Hget as <- <-.
    unfold get_all_todos_route, get_all_todos, bind, query_all in Hlist.
    apply from_orm_each_inv in Hlist as [Hviews _].
    assert (Hin : In (Some (view_of s r)) (map Some vs)).
    { rewrite <- Hviews. apply in_map_iff. exists r. split.
      - unfold to_view. now rewrite Hs.
      - now apply (find_has_id _ _ _ Hfind). }
    apply in_map_iff in Hin as (x & [= ->] & Hin). exact Hin.
  - rewrite (get_todo_by_id_missing _ _ Hfind) in Hget.
    destruct (storable todo_id); discriminate.
Qed.

Lemma got_todo_is_listed_witness :
  In (TodoResponse.mk 1 "A" None 0 1)
     [TodoResponse.mk 1 "A" None 0 1;
      TodoResponse.mk 2 "B" (Some "b"%string) 2 3].
Proof.
  apply (got_todo_is_listed world_AB world_AB world_AB 1
           (TodoResponse.mk 1 "A" None 0 1)
           [TodoResponse.mk 1 "A" None 0 1;
            TodoResponse.mk 2 "B" (Some "b"%string) 2 3]);
    reflexivity.
Defined.

(** ** When an update returns and when it raises *)




